(** * transcribe_script.py: a shallow embedding of [transcribe_audio]

    The script is one function, [transcribe_audio(audio_path,
    segment_length_sec)], that loads a speech model once per process,
    decodes and normalises an audio file, cuts it into windows of
    [segment_length_sec] seconds, transcribes every window through a
    temporary WAV file, prints the joined text and removes the temporary
    files in a [finally] clause.

    The embedding is a state/error/trace monad.  The state holds what the
    function reads and writes (the disk, the attribute
    [transcribe_audio.asr_model], the locals [temp_files] and
    [all_transcriptions]); a run returns a value or a raised exception,
    and the ordered list of the things it did (lines printed, library
    calls made).  The libraries the script calls (NeMo, pydub, tempfile)
    are an interface, [Externals], whose operations may fail and may
    change the outside world in any way; the interface also says when
    the operating system refuses to remove a file. *)

From Stdlib Require Import Ascii String.
From stdpp Require Import base strings gmap list pretty.

Local Open Scope Z_scope.

(** ** Python values *)

(** Exceptions, by the classes the [except] clauses tell apart.
    [Exception] is any other class under [Exception]; [BaseException] is
    a class outside it ([KeyboardInterrupt], [SystemExit]). *)
Inductive exn : Type :=
  | FileNotFoundError (msg : string)
  | ZeroDivisionError (msg : string)
  | Exception (msg : string)
  | BaseException (msg : string).

(** [str(e)], as the f-string of line 96 renders it. *)
Definition str_exn (e : exn) : string :=
  match e with
  | FileNotFoundError m | ZeroDivisionError m | Exception m | BaseException m => m
  end.

(** [isinstance(e, Exception)]. *)
Definition is_Exception (e : exn) : bool :=
  match e with
  | BaseException _ => false
  | _ => true
  end.

Definition res (A : Type) : Type := exn + A.

(** A pydub [AudioSegment], by the attributes the script reads:
    [audio.channels], [audio.frame_rate] and [len(audio)] (milliseconds). *)
Record AudioSegment : Type := {
  channels : Z;
  frame_rate : Z;
  len : Z
}.

(** [audio[start_time:end_time]]. *)
Record Segment : Type := {
  source : AudioSegment;
  start_time : Z;
  end_time : Z
}.

(** One element of the list [asr_model.transcribe] returns (a NeMo
    hypothesis object), by the attribute the script reads: [.text]. *)
Record Transcription : Type := { text : string }.

(** ** The outside world and the interface to the libraries *)

(** What library calls may read and change: the set of paths that
    exist, and everything else ([env]). *)
Record World (Env : Type) : Type := {
  disk : gset string;
  env : Env
}.
Arguments disk {Env} _.
Arguments env {Env} _.
Arguments Build_World {Env} _ _.

Class Externals (Env Model : Type) : Type := {
  (** [nemo_asr.models.ASRModel.from_pretrained(model_name=...)] *)
  from_pretrained : string → World Env → res Model * World Env;
  (** [model.cuda()] *)
  cuda : Model → World Env → res Model * World Env;
  (** [AudioSegment.from_file(path)] *)
  from_file : string → World Env → res AudioSegment * World Env;
  (** [audio.set_channels(n)] and [audio.set_frame_rate(r)] *)
  set_channels : Z → AudioSegment → res AudioSegment;
  set_frame_rate : Z → AudioSegment → res AudioSegment;
  (** [tempfile.NamedTemporaryFile(suffix=..., delete=False)], entered
      and left as a context manager; the value is [tmpfile.name]. *)
  NamedTemporaryFile : string → World Env → res string * World Env;
  (** [segment.export(path, format=...)] *)
  export : Segment → string → string → World Env → res unit * World Env;
  (** [asr_model.transcribe(paths)] *)
  transcribe : Model → list string → World Env → res (list Transcription) * World Env;
  (** [os.remove(path)] on a path that exists: the exception it raises
      when the file cannot be removed (it is a directory, permission is
      denied, another program holds it open), [None] when it can. *)
  os_remove_error : string → World Env → option exn;
  (** The float formatting [f"{ms / 1000:.2f}"] of a millisecond count.
      The counts formatted are lengths and offsets within the audio;
      [len(audio)] is the rounding of a double, so [ms / 1000] is a
      finite float. *)
  fmt_seconds : Z → string
}.

(** ** What a run does, in order *)

Inductive event (Model : Type) : Type :=
  | Print (line : string)
  | Load (model_name : string)
  | Cuda
  | Decode (path : string)
  | SetChannels (n : Z)
  | SetFrameRate (r : Z)
  | TempFile (path : string)
  | Append (path : string)
  | Export (seg : Segment) (path : string)
  | Transcribe (m : Model) (paths : list string)
  | Result (r : list Transcription)
  | Remove (path : string).
Arguments Print {Model} _.
Arguments Load {Model} _.
Arguments Cuda {Model}.
Arguments Decode {Model} _.
Arguments SetChannels {Model} _.
Arguments SetFrameRate {Model} _.
Arguments TempFile {Model} _.
Arguments Append {Model} _.
Arguments Export {Model} _ _.
Arguments Transcribe {Model} _ _.
Arguments Result {Model} _.
Arguments Remove {Model} _.

(** ** The state of the interpreter during a call *)

Record State (Env Model : Type) : Type := {
  world : World Env;
  (** the function attribute [transcribe_audio.asr_model]; [None] when
      [hasattr] is false *)
  asr_model : option Model;
  (** the locals that are lists mutated in place *)
  temp_files : list string;
  all_transcriptions : list string
}.
Arguments world {Env Model} _.
Arguments asr_model {Env Model} _.
Arguments temp_files {Env Model} _.
Arguments all_transcriptions {Env Model} _.
Arguments Build_State {Env Model} _ _ _ _.

Section Script.
Context {Env Model : Type} `{!Externals Env Model}.

Abbreviation St := (State Env Model).
Abbreviation Ev := (event Model).

Definition set_world (w : World Env) (s : St) : St :=
  Build_State w (asr_model s) (temp_files s) (all_transcriptions s).
Definition set_asr_model (m : Model) (s : St) : St :=
  Build_State (world s) (Some m) (temp_files s) (all_transcriptions s).
Definition set_temp_files (l : list string) (s : St) : St :=
  Build_State (world s) (asr_model s) l (all_transcriptions s).
Definition set_all_transcriptions (l : list string) (s : St) : St :=
  Build_State (world s) (asr_model s) (temp_files s) l.

(** *** The monad: state, exceptions, and the trace of the run *)

Definition M (A : Type) : Type := St → res A * St * list Ev.

Definition ret {A} (a : A) : M A := λ s, (inr a, s, []).

Definition bind {A B} (m : M A) (k : A → M B) : M B := λ s,
  match m s with
  | (inl e, s1, t1) => (inl e, s1, t1)
  | (inr a, s1, t1) =>
      match k a s1 with
      | (r, s2, t2) => (r, s2, t1 ++ t2)
      end
  end.

Definition raise {A} (e : exn) : M A := λ s, (inl e, s, []).

Definition emit (e : Ev) : M unit := λ s, (inr (), s, [e]).

Definition gets {A} (f : St → A) : M A := λ s, (inr (f s), s, []).

Definition modify (f : St → St) : M unit := λ s, (inr (), f s, []).

(** A fallible pure library call. *)
Definition lift {A} (r : res A) : M A := λ s, (r, s, []).

(** A library call on the outside world. *)
Definition extern {A} (f : World Env → res A * World Env) : M A := λ s,
  match f (world s) with
  | (r, w) => (r, set_world w s, [])
  end.

(** [for x in l: f x] *)
Fixpoint for_each {A} (l : list A) (f : A → M unit) : M unit :=
  match l with
  | [] => ret ()
  | x :: l' => bind (f x) (λ _, for_each l' f)
  end.

(** [try: body / except ...: handler / finally: fin].  [handler e] is
    [None] when no [except] clause matches [e]. *)
Definition try_except_finally
    (body : M unit) (handler : exn → option (M unit)) (fin : M unit) : M unit := λ s,
  match body s with
  | (r, s1, t1) =>
      let '(r', s2, t2) :=
        match r with
        | inr v => (inr v, s1, [])
        | inl e =>
            match handler e with
            | Some h => h s1
            | None => (inl e, s1, [])
            end
        end in
      match fin s2 with
      | (inl e, s3, t3) => (inl e, s3, t1 ++ t2 ++ t3)
      | (inr _, s3, t3) => (r', s3, t1 ++ t2 ++ t3)
      end
  end.

Local Notation "'do' x <- m ; k" := (bind m (λ x, k))
  (at level 10, x name, m at level 100, k at level 200).
Local Notation "'exec' m ; k" := (bind m (λ _, k))
  (at level 10, m at level 100, k at level 200).

(** *** Builtins *)

Definition print (line : string) : M unit := emit (Print line).

(** [os.path.exists(path)] *)
Definition os_path_exists (path : string) : M bool :=
  gets (λ s, bool_decide (path ∈ disk (world s))).

(** [os.remove(path)]: raises when [path] is absent or cannot be
    removed, and leaves the disk as it is then; deletes exactly [path]
    otherwise. *)
Definition os_remove (path : string) : M unit :=
  do present <- os_path_exists path;
  if present then
    do refused <- gets (λ s, os_remove_error path (world s));
    match refused with
    | Some e => raise e
    | None =>
        exec emit (Remove path);
        modify (λ s, set_world (Build_World (disk (world s) ∖ {[path]}) (env (world s))) s)
    end
  else
    raise (FileNotFoundError ("[Errno 2] No such file or directory: '" +:+ path +:+ "'")).

(** [os.path.basename(path)] (posixpath): what follows the last slash. *)
Fixpoint basename_from (acc path : string) : string :=
  match path with
  | EmptyString => acc
  | String c rest =>
      if Ascii.eqb c "/"%char then basename_from "" rest
      else basename_from (acc +:+ String c "") rest
  end.
Definition basename (path : string) : string := basename_from "" path.

(** [range(n)]: empty when [n <= 0]. *)
Definition range (n : Z) : list Z := seqZ 0 n.

(** A finite Python [float]: the double [± mantissa * 2^exponent]. *)
Record double : Type := {
  negative : bool;
  mantissa : Z;
  exponent : Z
}.

(** The integer nearest to [num / den] for a positive [den], the even
    one of the two when it is half-way. *)
Definition round_half_even (num den : Z) : Z :=
  let q := num `div` den in
  let r := num `mod` den in
  if decide (2 * r < den) then q
  else if decide (den < 2 * r) then q + 1
  else if Z.even q then q else q + 1.

(** The binade of [n / d] for two positive ints: the [e] with
    [2^e <= n / d < 2^(e+1)]. *)
Definition binade (n d : Z) : Z :=
  let e := Z.log2 n - Z.log2 d in
  if decide (n * 2 ^ Z.max 0 (- e) < d * 2 ^ Z.max 0 e) then e - 1 else e.

(** [a / b] on two ints, Python's true division: the double nearest to
    the exact quotient (53 bits of mantissa, exponents down to -1074,
    ties to even).  It raises on a zero divisor and when the quotient
    is too large for a double; a quotient too small for a double
    becomes zero. *)
Definition true_div (a b : Z) : res double :=
  if decide (b = 0) then inl (ZeroDivisionError "division by zero")
  else
    let neg := xorb (bool_decide (a < 0)) (bool_decide (b < 0)) in
    let n := Z.abs a in
    let d := Z.abs b in
    if decide (n = 0) then inr (Build_double neg 0 0)
    else
      let e := Z.max (binade n d - 52) (-1074) in
      let m := round_half_even (n * 2 ^ Z.max 0 (- e)) (d * 2 ^ Z.max 0 e) in
      if decide (2 ^ 1024 ≤ m * 2 ^ e)
      then inl (Exception "integer division result too large for a float")
      else inr (Build_double neg m e).

(** [math.ceil(x)] on a finite float: an int. *)
Definition math_ceil (x : double) : Z :=
  let m := if negative x then - mantissa x else mantissa x in
  if decide (0 ≤ exponent x) then m * 2 ^ exponent x
  else - ((- m) `div` 2 ^ (- exponent x)).

(** [math.ceil(a / b)] on two ints (line 56). *)
Definition ceil_true_div (a b : Z) : res Z :=
  match true_div a b with
  | inl e => inl e
  | inr x => inr (math_ceil x)
  end.

(** [sep.join(l)] *)
Definition join (sep : string) (l : list string) : string :=
  match l with
  | [] => ""
  | x :: rest => fold_left (λ acc y, acc +:+ sep +:+ y) rest x
  end.

(** *** Lines 22-28: the model, loaded on the first call *)

Definition model_name : string := "nvidia/parakeet-tdt-0.6b-v2".

Definition get_asr_model : M Model :=
  do cached <- gets asr_model;
  match cached with
  | Some m => ret m
  | None =>
      exec print "Loading Parakeet TDT model...";
      exec emit (Load model_name);
      do m0 <- extern (from_pretrained model_name);
      exec emit Cuda;
      do m <- extern (cuda m0);
      exec modify (set_asr_model m);
      exec print "Model loaded and moved to GPU.";
      ret m
  end.

(** *** Lines 43-51: mono, 16 kHz *)

Definition normalize (audio : AudioSegment) : M AudioSegment :=
  do audio <-
    (if decide (channels audio > 1) then
       exec print ("Audio has " +:+ pretty (channels audio)
                   +:+ " channels. Converting to mono.");
       exec emit (SetChannels 1);
       lift (set_channels 1 audio)
     else ret audio);
  if decide (frame_rate audio ≠ 16000) then
    exec print ("Audio has sample rate " +:+ pretty (frame_rate audio)
                +:+ " Hz. Resampling to 16000 Hz.");
    exec emit (SetFrameRate 16000);
    lift (set_frame_rate 16000 audio)
  else ret audio.

(** *** Lines 63-84: one turn of the loop *)

Definition placeholder : string := "[Transcription Failed for Segment]".

(** Lines 81-84: the text kept for a segment. *)
Definition fragment (segment_transcription : list Transcription) : string :=
  match segment_transcription with
  | first :: _ => text first
  | [] => placeholder
  end.

(** Lines 64-65. *)
Definition segment_bounds (segment_length_ms total_length_ms i : Z) : Z * Z :=
  (i * segment_length_ms, Z.min ((i + 1) * segment_length_ms) total_length_ms).

Definition process_segment (model : Model) (audio : AudioSegment)
    (segment_length_ms total_length_ms num_segments i : Z) : M unit :=
  let '(start_time, end_time) := segment_bounds segment_length_ms total_length_ms i in
  let segment := Build_Segment audio start_time end_time in
  do temp_wav_file_path <-
    extern (NamedTemporaryFile ("_" +:+ pretty i +:+ ".wav"));
  exec emit (TempFile temp_wav_file_path);
  exec emit (Append temp_wav_file_path);
  exec modify (λ s, set_temp_files (temp_files s ++ [temp_wav_file_path]) s);
  exec emit (Export segment temp_wav_file_path);
  exec extern (export segment temp_wav_file_path "wav");
  exec print ("Transcribing segment " +:+ pretty (i + 1) +:+ "/" +:+ pretty num_segments
              +:+ " (" +:+ fmt_seconds start_time +:+ "s - "
              +:+ fmt_seconds end_time +:+ "s)...");
  exec emit (Transcribe model [temp_wav_file_path]);
  do segment_transcription <- extern (transcribe model [temp_wav_file_path]);
  exec emit (Result segment_transcription);
  modify (λ s, set_all_transcriptions
                 (all_transcriptions s ++ [fragment segment_transcription]) s).

(** *** Lines 53-90: split, transcribe, join *)

Definition header : string := String "010"%char "Full Transcription:".

Definition split_and_transcribe (model : Model) (audio : AudioSegment)
    (segment_length_sec : Z) : M unit :=
  let segment_length_ms := segment_length_sec * 1000 in
  let total_length_ms := len audio in
  do num_segments <- lift (ceil_true_div total_length_ms segment_length_ms);
  exec print ("Total audio length: " +:+ fmt_seconds total_length_ms +:+ " seconds");
  exec print ("Splitting into " +:+ pretty num_segments +:+ " segments of up to "
              +:+ pretty segment_length_sec +:+ " seconds.");
  exec modify (set_all_transcriptions []);
  exec for_each (range num_segments)
         (process_segment model audio segment_length_ms total_length_ms num_segments);
  do fragments <- gets all_transcriptions;
  let final_transcription := join " " fragments in
  exec print header;
  print final_transcription.

(** *** Lines 33-90: the body of the [try] *)

Definition try_block (model : Model) (original_audio_path : string)
    (segment_length_sec : Z) : M unit :=
  do found <- os_path_exists original_audio_path;
  if negb found then
    (* the early [return] of line 36: nothing follows the [try] statement *)
    print ("Error: Audio file not found at " +:+ original_audio_path)
  else
    exec print ("Processing audio file: " +:+ basename original_audio_path);
    exec emit (Decode original_audio_path);
    do audio <- extern (from_file original_audio_path);
    do audio <- normalize audio;
    split_and_transcribe model audio segment_length_sec.

(** *** Lines 92-96: the [except] clauses *)

Definition except_clauses (e : exn) : option (M unit) :=
  match e with
  | FileNotFoundError _ =>
      Some (exec print "Error: Required library (like FFmpeg for some audio formats) might not be installed or found.";
            print "Please ensure FFmpeg is installed and in your system's PATH.")
  | ZeroDivisionError _ | Exception _ =>
      Some (print ("An error occurred: " +:+ str_exn e))
  | BaseException _ => None
  end.

(** *** Lines 97-103: the [finally] clause *)

Definition finally_block : M unit :=
  do recorded <- gets temp_files;
  exec for_each recorded (λ temp_file_path,
         do present <- os_path_exists temp_file_path;
         if present then os_remove temp_file_path else ret ());
  print "Temporary files cleaned up.".

(** *** Lines 11-103 *)

Definition transcribe_audio (audio_path : string) (segment_length_sec : Z) : M unit :=
  do model <- get_asr_model;
  let original_audio_path := audio_path in
  exec modify (set_temp_files []);
  try_except_finally
    (try_block model original_audio_path segment_length_sec)
    except_clauses
    finally_block.

(** *** The windows of the Segmenter, as a list *)

(** The [(start_time, end_time)] pairs the loop of line 63 goes through
    for a segment length in seconds and a total length in milliseconds:
    [range] of the count of line 56, through lines 64-65. *)
Definition segments (segment_length_sec total_length_ms : Z) : list (Z * Z) :=
  let segment_length_ms := segment_length_sec * 1000 in
  match ceil_true_div total_length_ms segment_length_ms with
  | inr num_segments => segment_bounds segment_length_ms total_length_ms <$> range num_segments
  | inl _ => []
  end.

End Script.

(** ** Reading a trace *)

Section Traces.
Context {Model : Type}.
Implicit Types t : list (event Model).

(** The lines written to standard output, in order. *)
Definition printed t : list string :=
  omap (λ e, match e with Print line => Some line | _ => None end) t.

(** The model names [from_pretrained] was called with. *)
Definition loaded t : list string :=
  omap (λ e, match e with Load name => Some name | _ => None end) t.

(** The paths [AudioSegment.from_file] was called with. *)
Definition decodings t : list string :=
  omap (λ e, match e with Decode path => Some path | _ => None end) t.

(** The temporary files [NamedTemporaryFile] made. *)
Definition created t : list string :=
  omap (λ e, match e with TempFile path => Some path | _ => None end) t.

(** The paths appended to [temp_files]. *)
Definition appended t : list string :=
  omap (λ e, match e with Append path => Some path | _ => None end) t.

(** The segments handed to [export]. *)
Definition exported t : list Segment :=
  omap (λ e, match e with Export seg _ => Some seg | _ => None end) t.

(** The models [transcribe] was called on. *)
Definition transcribers t : list Model :=
  omap (λ e, match e with Transcribe m _ => Some m | _ => None end) t.

(** What the calls of [transcribe] returned. *)
Definition results t : list (list Transcription) :=
  omap (λ e, match e with Result r => Some r | _ => None end) t.

(** The paths [os.remove] deleted (a call that raises deletes nothing
    and leaves no event). *)
Definition removed t : list string :=
  omap (λ e, match e with Remove path => Some path | _ => None end) t.

(** Every path given to [export] or [transcribe] was appended to
    [temp_files] earlier in the trace, or is in [seen] already. *)
Fixpoint registered_first (seen : list string) t : bool :=
  match t with
  | [] => true
  | Append path :: t' => registered_first (path :: seen) t'
  | Export _ path :: t' => bool_decide (path ∈ seen) && registered_first seen t'
  | Transcribe _ paths :: t' =>
      forallb (λ path, bool_decide (path ∈ seen)) paths && registered_first seen t'
  | _ :: t' => registered_first seen t'
  end.

End Traces.

(** ** A process that calls [transcribe_audio] several times *)

Section Process.
Context {Env Model : Type} `{!Externals Env Model}.

(** The calls are made one after the other on the same process state;
    the caller goes on to the next call whatever the previous one
    returned or raised.  The value is the final state with the trace of
    each call. *)
Fixpoint calls (args : list (string * Z)) (s : State Env Model)
    : State Env Model * list (list (event Model)) :=
  match args with
  | [] => (s, [])
  | (audio_path, segment_length_sec) :: rest =>
      match transcribe_audio audio_path segment_length_sec s with
      | (_, s1, t1) =>
          match calls rest s1 with
          | (s2, ts) => (s2, t1 :: ts)
          end
      end
  end.

End Process.

(** ** The Aggregator, in the words of its description *)

(** The fragments in order, one space between two consecutive ones. *)
Fixpoint space_joined (fragments : list string) : string :=
  match fragments with
  | [] => ""
  | [only] => only
  | first :: rest => first +:+ " " +:+ space_joined rest
  end.

(** ** The shape of a run, for the proofs *)

Section Shapes.
Context {Env Model : Type} `{!Externals Env Model}.

(** A relation between the state before, the state after and the trace
    holds for every run of a computation. *)
Definition along {A} (R : State Env Model → State Env Model → list (event Model) → Prop)
    (m : M A) : Prop :=
  ∀ s r s' t, m s = (r, s', t) → R s s' t.

(** What holds from one point of the [try] body to a later one, whether
    or not a library call raised in between. *)
Definition body_inv (model : Model) (s s' : State Env Model)
    (t : list (event Model)) : Prop :=
  asr_model s' = asr_model s
  ∧ temp_files s' = temp_files s ++ appended t
  ∧ created t = appended t
  ∧ (∀ seen, temp_files s ⊆ seen → registered_first seen t = true)
  ∧ loaded t = [] ∧ removed t = []
  ∧ (∀ m', m' ∈ transcribers t → m' = model).

(** The same inside the loop of lines 63-84, where [all_transcriptions]
    only grows. *)
Definition loop_inv (model : Model) (s s' : State Env Model)
    (t : list (event Model)) : Prop :=
  body_inv model s s' t
  ∧ all_transcriptions s' = all_transcriptions s ++ (fragment <$> results t).

(** A trace that makes, records, uses and removes no file and calls no
    library on a model or a file. *)
Definition idle (t : list (event Model)) : Prop :=
  created t = [] ∧ appended t = [] ∧ removed t = [] ∧ exported t = []
  ∧ decodings t = [] ∧ transcribers t = [] ∧ results t = []
  ∧ ∀ seen, registered_first seen t = true.

(** The segment line 66 cuts at index [i]. *)
Definition window (audio : AudioSegment) (L T i : Z) : Segment :=
  Build_Segment audio (segment_bounds L T i).1 (segment_bounds L T i).2.

(** What the [except] clauses print for the outcome of the [try] body. *)
Definition handler_lines (r : res unit) : list string :=
  match r with
  | inr _ => []
  | inl (FileNotFoundError _) =>
      ["Error: Required library (like FFmpeg for some audio formats) might not be installed or found.";
       "Please ensure FFmpeg is installed and in your system's PATH."]
  | inl (BaseException _) => []
  | inl e => ["An error occurred: " +:+ str_exn e]
  end.

(** How the [try] statement ends for the outcome of its body. *)
Definition after_try (r : res unit) : res unit :=
  match r with
  | inr v => inr v
  | inl e => if is_Exception e then inr () else inl e
  end.

(** The state once the paths [gone] are off the disk. *)
Definition without (gone : list string) (s : State Env Model) : State Env Model :=
  set_world (Build_World (disk (world s) ∖ list_to_set gone) (env (world s))) s.

(** What line 103 prints, for the outcome of the loop of lines 99-102:
    the line is not reached when an [os.remove] raised. *)
Definition closing (fin : res unit) : list string :=
  match fin with
  | inr _ => ["Temporary files cleaned up."]
  | inl _ => []
  end.

(** How the function is left, for the outcome [fin] of the [finally]
    clause and the outcome [r] of the [try] statement before it: an
    exception raised in the [finally] clause replaces [r]. *)
Definition leave (fin r : res unit) : res unit :=
  match fin with
  | inl e => inl e
  | inr _ => r
  end.

(** The [finally] clause removed the paths [gone] and ended as [fin],
    from the state [s]: only recorded paths are removed; when the
    clause did not raise no recorded path is left on disk; and what it
    raises was raised by [os.remove] on a recorded path. *)
Definition cleaned (gone : list string) (fin : res unit) (s : State Env Model) : Prop :=
  gone ⊆ temp_files s
  ∧ (fin = inr () → ∀ p, p ∈ temp_files s → p ∉ disk (world (without gone s)))
  ∧ (∀ e, fin = inl e → ∃ p w, p ∈ temp_files s ∧ os_remove_error p w = Some e).

(** [os.remove] removes every file it is asked to. *)
Definition removals_succeed : Prop := ∀ p w, os_remove_error p w = None.

End Shapes.

(** ** More to read off a run *)

Section MoreShapes.
Context {Env Model : Type} `{!Externals Env Model}.

(** The lists of paths [transcribe] was called with. *)
Definition transcribed (t : list (event Model)) : list (list string) :=
  omap (λ e, match e with Transcribe _ paths => Some paths | _ => None end) t.

(** The progress line of line 78 for the segment of index [i]. *)
Definition progress_line (segment_length_ms total_length_ms num_segments i : Z) : string :=
  "Transcribing segment " +:+ pretty (i + 1) +:+ "/" +:+ pretty num_segments
  +:+ " (" +:+ fmt_seconds (segment_bounds segment_length_ms total_length_ms i).1
  +:+ "s - "
  +:+ fmt_seconds (segment_bounds segment_length_ms total_length_ms i).2 +:+ "s)...".

(** The two lines of lines 58-59. *)
Definition announcement (total_length_ms num_segments segment_length_sec : Z)
    : list string :=
  ["Total audio length: " +:+ fmt_seconds total_length_ms +:+ " seconds";
   "Splitting into " +:+ pretty num_segments +:+ " segments of up to "
   +:+ pretty segment_length_sec +:+ " seconds."].

(** A library call that neither makes nor removes the path [p]. *)
Definition keeps (p : string) {A} (f : World Env → res A * World Env) : Prop :=
  ∀ w, p ∈ disk (f w).2 ↔ p ∈ disk w.

(** No library call makes or removes [p], unless it is [export] asked
    to write to [p] itself, and [NamedTemporaryFile] never gives [p] as
    the name of a temporary file. *)
Definition libraries_keep (p : string) : Prop :=
  (∀ name, keeps p (from_pretrained name))
  ∧ (∀ m, keeps p (cuda m))
  ∧ (∀ path, keeps p (from_file path))
  ∧ (∀ suffix, keeps p (NamedTemporaryFile suffix))
  ∧ (∀ suffix w, (NamedTemporaryFile suffix w).1 ≠ inr p)
  ∧ (∀ seg path format, path ≠ p → keeps p (export seg path format))
  ∧ (∀ m paths, keeps p (transcribe m paths)).

(** Between two points of a run, [p] is on disk after exactly when it
    was before, and is not the name of a temporary file made. *)
Definition kept (p : string) (s s' : State Env Model) (t : list (event Model)) : Prop :=
  (p ∈ disk (world s') ↔ p ∈ disk (world s)) ∧ p ∉ created t.

(** What pydub promises of the two conversions: the attribute asked for
    is set, the other one is kept. *)
Definition conversions_as_documented : Prop :=
  (∀ n a a', set_channels n a = inr a' →
     channels a' = n ∧ frame_rate a' = frame_rate a)
  ∧ (∀ r a a', set_frame_rate r a = inr a' →
       frame_rate a' = r ∧ channels a' = channels a).

End MoreShapes.

(** ** Concrete libraries, to run the script on *)

Module Demo.

(** What the libraries do in one scenario: which calls fail, what the
    file decodes to, what the model says for the n-th temporary file,
    and which files cannot be removed. *)
Record Scenario : Type := {
  load_result : res nat;
  cuda_failure : option exn;
  decoded : res AudioSegment;
  export_failure : nat → option exn;
  transcription : nat → res (list Transcription);
  remove_failure : string → option exn
}.

(** [f"{x:.2f}"] on a finite float: its exact value rounded to two
    decimals, ties to even. *)
Definition format_2f (x : double) : string :=
  let cents :=
    if decide (0 ≤ exponent x) then mantissa x * 2 ^ exponent x * 100
    else round_half_even (mantissa x * 100) (2 ^ (- exponent x)) in
  (if negative x then "-" else "") +:+ pretty (cents `div` 100) +:+ "."
  +:+ pretty ((cents `div` 10) `mod` 10) +:+ pretty (cents `mod` 10).

(** The world's [env] counts the temporary files made so far.  A count
    of milliseconds too large for [ms / 1000] to be a float is rendered
    as "inf". *)
Definition externals (sc : Scenario) : Externals nat nat := {|
  from_pretrained _ w := (load_result sc, w);
  cuda m w := (from_option inl (inr m) (cuda_failure sc), w);
  from_file _ w := (decoded sc, w);
  set_channels n a := inr {| channels := n; frame_rate := frame_rate a; len := len a |};
  set_frame_rate r a := inr {| channels := channels a; frame_rate := r; len := len a |};
  NamedTemporaryFile suffix w :=
    let path := "/tmp/tmp" +:+ pretty (env w) +:+ suffix in
    (inr path, Build_World ({[path]} ∪ disk w) (S (env w)));
  export _ path _ w :=
    (from_option inl (inr ()) (export_failure sc (env w)),
     Build_World ({[path]} ∪ disk w) (env w));
  transcribe _ _ w := (transcription sc (env w), w);
  os_remove_error path _ := remove_failure sc path;
  fmt_seconds ms :=
    match true_div ms 1000 with
    | inr x => format_2f x
    | inl _ => "inf"
    end
|}.

(** Stereo, 44.1 kHz, two and a half minutes. *)
Definition stereo : AudioSegment := {| channels := 2; frame_rate := 44100; len := 150000 |}.

(** Everything works; the model has nothing to say about the second
    segment. *)
Definition gap_in_the_middle : Scenario := {|
  load_result := inr 7%nat;
  cuda_failure := None;
  decoded := inr stereo;
  export_failure _ := None;
  transcription n :=
    match n with
    | 1%nat => inr [ {| text := "hello" |} ]
    | 3%nat => inr [ {| text := "world" |} ]
    | _ => inr []
    end;
  remove_failure _ := None
|}.

(** A machine without a GPU: [.cuda()] raises. *)
Definition no_gpu : Scenario := {|
  load_result := inr 7%nat;
  cuda_failure := Some (Exception "Torch not compiled with CUDA enabled");
  decoded := inr stereo;
  export_failure _ := None;
  transcription _ := inr [];
  remove_failure _ := None
|}.

(** The model fails on the second segment. *)
Definition inference_breaks : Scenario := {|
  load_result := inr 7%nat;
  cuda_failure := None;
  decoded := inr stereo;
  export_failure _ := None;
  transcription n :=
    match n with
    | 1%nat => inr [ {| text := "hello" |} ]
    | _ => inl (Exception "CUDA out of memory")
    end;
  remove_failure _ := None
|}.

(** A fresh process: nothing cached, one file on disk. *)
Definition fresh : State nat nat :=
  Build_State (Build_World {[ "talk.wav" ]} 0%nat) None [] [].

(** A process in which the model is already cached. *)
Definition warm : State nat nat :=
  Build_State (Build_World {[ "talk.wav" ]} 0%nat) (Some 7%nat) [] [].

(** The user interrupts the run during the second segment. *)
Definition interrupted : Scenario := {|
  load_result := inr 7%nat;
  cuda_failure := None;
  decoded := inr stereo;
  export_failure _ := None;
  transcription n :=
    match n with
    | 1%nat => inr [ {| text := "hello" |} ]
    | _ => inl (BaseException "KeyboardInterrupt")
    end;
  remove_failure _ := None
|}.

(** The same libraries on a machine where another program holds the
    second temporary file open: [os.remove] raises on it. *)
Definition locked (sc : Scenario) : Scenario := {|
  load_result := load_result sc;
  cuda_failure := cuda_failure sc;
  decoded := decoded sc;
  export_failure := export_failure sc;
  transcription := transcription sc;
  remove_failure path :=
    if String.eqb path "/tmp/tmp1_1.wav"
    then Some (Exception "[WinError 32] The process cannot access the file because it is being used by another process: '/tmp/tmp1_1.wav'")
    else None
|}.

(** Silence: the model returns one result, with an empty text, for
    every segment. *)
Definition silence : Scenario := {|
  load_result := inr 7%nat;
  cuda_failure := None;
  decoded := inr stereo;
  export_failure _ := None;
  transcription _ := inr [ {| text := "" |} ];
  remove_failure _ := None
|}.

(** The model cannot be fetched. *)
Definition no_network : Scenario := {|
  load_result := inl (Exception "Connection error");
  cuda_failure := None;
  decoded := inr stereo;
  export_failure _ := None;
  transcription _ := inr [];
  remove_failure _ := None
|}.

End Demo.


(** * Properties *)

(** ** The arithmetic of the Segmenter *)

Lemma round_half_even_le (num den K : Z) :
  0 < den → num ≤ K * den → round_half_even num den ≤ K.
Proof.
  intros Hden Hle. unfold round_half_even.
  pose proof (Z.div_mod num den ltac:(lia)) as Hdm.
  pose proof (Z.mod_pos_bound num den Hden) as Hmod.
  repeat case_decide; try case_match; nia.
Qed.

Lemma round_half_even_ge (num den K : Z) :
  0 < den → (2 * K + 1) * den < 2 * num → K + 1 ≤ round_half_even num den.
Proof.
  intros Hden Hlt. unfold round_half_even.
  pose proof (Z.div_mod num den ltac:(lia)) as Hdm.
  pose proof (Z.mod_pos_bound num den Hden) as Hmod.
  repeat case_decide; try case_match; nia.
Qed.

Lemma round_half_even_nonneg (num den : Z) :
  0 ≤ num → 0 < den → 0 ≤ round_half_even num den.
Proof.
  intros Hnum Hden. unfold round_half_even.
  pose proof (Z.div_pos num den Hnum Hden).
  repeat case_decide; try case_match; lia.
Qed.

Lemma binade_le (n d : Z) : 0 < d → binade n d ≤ Z.log2 n.
Proof.
  intros Hd. unfold binade. pose proof (Z.log2_nonneg d). case_decide; lia.
Qed.

Lemma binade_lower (n d : Z) :
  0 < n → 0 < d → 0 ≤ binade n d → 2 ^ binade n d * d ≤ n.
Proof.
  intros Hn Hd. unfold binade.
  destruct (Z.log2_spec n Hn) as [Hn1 Hn2]. destruct (Z.log2_spec d Hd) as [Hd1 Hd2].
  pose proof (Z.log2_nonneg d) as Hld.
  set (e := Z.log2 n - Z.log2 d) in *. case_decide as Hcmp; intros He.
  - assert (Hpow : 2 ^ (e - 1) * 2 ^ Z.succ (Z.log2 d) = 2 ^ Z.log2 n).
    { rewrite <- Z.pow_add_r by lia. f_equal. lia. }
    assert (0 < 2 ^ (e - 1)) by (apply Z.pow_pos_nonneg; lia). nia.
  - rewrite Z.max_l, Z.max_r, Z.pow_0_r in Hcmp by lia. lia.
Qed.


(** A quotient of two ints, the first one positive and below 2^53: the
    double has a non-positive exponent [- s] and the mantissa is the
    rounding of [a * 2^s / b]. *)
Lemma true_div_small (a b : Z) :
  0 < a < 2 ^ 53 → 0 < b →
  ∃ s, 0 ≤ s
       ∧ true_div a b
         = inr {| negative := false;
                  mantissa := round_half_even (a * 2 ^ s) b;
                  exponent := - s |}
       ∧ (b < 2 ^ 53 → b < 2 ^ (s + 1)).
Proof.
  intros Ha Hb. unfold true_div.
  destruct (decide (b = 0)) as [|_]; [lia|].
  rewrite (bool_decide_eq_false_2 (a < 0)), (bool_decide_eq_false_2 (b < 0)) by lia.
  rewrite !Z.abs_eq by lia. destruct (decide (a = 0)) as [|_]; [lia|].
  cbv zeta. simpl xorb.
  assert (Hlog : Z.log2 a < 53) by (apply Z.log2_lt_pow2; lia).
  pose proof (binade_le a b Hb) as Hle.
  pose proof (binade_lower a b ltac:(lia) Hb) as Hlow.
  set (e := Z.max (binade a b - 52) (-1074)) in *.
  assert (He : e ≤ 0) by lia.
  exists (- e). split; [lia|].
  rewrite (Z.max_r 0 (- e)), (Z.max_l 0 e), Z.pow_0_r, Z.mul_1_r, Z.opp_involutive by lia.
  split.
  - case_decide as Hover; [|done]. exfalso.
    assert (Hbig : 2 ^ 53 < 2 ^ 1024) by (apply Z.pow_lt_mono_r; lia).
    destruct (decide (e = 0)) as [He0|He0].
    + rewrite He0 in Hover. change (- 0) with 0 in Hover.
      rewrite !Z.pow_0_r, !Z.mul_1_r in Hover.
      pose proof (round_half_even_le a b a Hb ltac:(nia)). lia.
    + rewrite (Z.pow_neg_r 2 e), Z.mul_0_r in Hover by lia. lia.
  - intros Hb53. destruct (decide (0 ≤ binade a b)) as [Hpos|Hneg].
    + specialize (Hlow Hpos). replace (- e + 1) with (53 - binade a b) by lia.
      assert (Hsplit : 2 ^ binade a b * 2 ^ (53 - binade a b) = 2 ^ 53).
      { rewrite <- Z.pow_add_r by lia. f_equal. lia. }
      assert (0 < 2 ^ binade a b) by (apply Z.pow_pos_nonneg; lia). nia.
    + assert (2 ^ 53 ≤ 2 ^ (- e + 1)) by (apply Z.pow_le_mono_r; lia). lia.
Qed.

(** The ceiling of a double that is not negative and has a non-positive
    exponent. *)
Lemma math_ceil_small (m s : Z) :
  0 ≤ s →
  math_ceil {| negative := false; mantissa := m; exponent := - s |}
  = - ((- m) `div` 2 ^ s).
Proof.
  intros Hs. unfold math_ceil. simpl. case_decide as He.
  - assert (s = 0) as -> by lia. change (- 0) with 0. rewrite Z.pow_0_r, Z.div_1_r. lia.
  - by rewrite Z.opp_involutive.
Qed.

Lemma ceil_true_div_zero (a : Z) :
  ceil_true_div a 0 = inl (ZeroDivisionError "division by zero").
Proof. reflexivity. Qed.

Lemma ceil_true_div_of_zero (b : Z) : b ≠ 0 → ceil_true_div 0 b = inr 0.
Proof.
  intros Hb. unfold ceil_true_div, true_div. destruct (decide (b = 0)); [done|].
  simpl. unfold math_ceil. simpl. by case_match.
Qed.

(** [math.ceil(a / b)] for two ints, the first one not negative and
    below 2^53, the second one positive: the ceiling of the exact
    quotient when the second one is below 2^53 as well, and 0 or the
    ceiling of the exact quotient in any case. *)
Lemma ceil_true_div_small (a b : Z) :
  0 ≤ a < 2 ^ 53 → 0 < b →
  ∃ n, ceil_true_div a b = inr n
       ∧ (n = 0 ∨ (n - 1) * b < a ≤ n * b)
       ∧ (b < 2 ^ 53 → (n - 1) * b < a ≤ n * b).
Proof.
  intros Ha Hb. destruct (decide (a = 0)) as [->|Hne].
  { exists 0. rewrite ceil_true_div_of_zero by lia. split; [done|]. split; [by left | lia]. }
  destruct (true_div_small a b ltac:(lia) Hb) as (s & Hs & Hdiv & Hbound).
  unfold ceil_true_div. rewrite Hdiv, (math_ceil_small _ _ Hs).
  set (m := round_half_even (a * 2 ^ s) b).
  set (c := - ((- a) `div` b)).
  assert (Hc : (c - 1) * b < a ≤ c * b).
  { pose proof (Z.div_mod (- a) b ltac:(lia)) as Hdm.
    pose proof (Z.mod_pos_bound (- a) b Hb) as Hmod. unfold c. nia. }
  assert (HP : 0 < 2 ^ s) by (apply Z.pow_pos_nonneg; lia).
  assert (Hup : m ≤ c * 2 ^ s) by (apply round_half_even_le; [lia | nia]).
  assert (Hm0 : 0 ≤ m) by (apply round_half_even_nonneg; nia).
  pose proof (Z.div_mod (- m) (2 ^ s) ltac:(lia)) as Hdm.
  pose proof (Z.mod_pos_bound (- m) (2 ^ s) HP) as Hmod.
  set (n := - ((- m) `div` 2 ^ s)) in *.
  assert (Hn : (n - 1) * 2 ^ s < m ≤ n * 2 ^ s) by (unfold n; nia).
  assert (Hnc : 0 ≤ n ≤ c) by nia.
  assert (Hexact : b < 2 ^ (s + 1) → n = c).
  { intros Hlt. rewrite Z.pow_add_r, Z.pow_1_r in Hlt by lia.
    assert (Hlow : (c - 1) * 2 ^ s + 1 ≤ m) by (apply round_half_even_ge; [lia | nia]).
    nia. }
  exists n. split; [done|].
  destruct (decide (b < 2 ^ 53)) as [Hsmall|Hlarge].
  - rewrite (Hexact (Hbound Hsmall)). split; [by right | done].
  - split; [|done]. assert (c = 1) by nia. destruct (decide (n = 0)); [by left|].
    right. assert (n = 1) by lia. lia.
Qed.



Lemma range_lookup (n : Z) (k : nat) :
  Z.of_nat k < n → range n !! k = Some (Z.of_nat k).
Proof. intros Hk. unfold range. by rewrite lookup_seqZ_lt. Qed.

Lemma range_length (n : Z) : length (range n) = Z.to_nat n.
Proof. apply length_seqZ. Qed.

Lemma segments_eq (D T n : Z) :
  ceil_true_div T (D * 1000) = inr n →
  segments D T = segment_bounds (D * 1000) T <$> range n.
Proof. intros Hn. unfold segments. by rewrite Hn. Qed.

Lemma segments_lookup (D T n : Z) (k : nat) :
  ceil_true_div T (D * 1000) = inr n →
  segments D T !! k =
    if decide (Z.of_nat k < n)
    then Some (Z.of_nat k * (D * 1000), Z.min ((Z.of_nat k + 1) * (D * 1000)) T)
    else None.
Proof.
  intros Hn. rewrite (segments_eq _ _ _ Hn), list_lookup_fmap.
  destruct (decide (Z.of_nat k < n)) as [Hk|Hk].
  - by rewrite range_lookup.
  - unfold range. rewrite lookup_seqZ_ge; [done | lia].
Qed.

(** A window of [segments] at position [k]. *)
Lemma segments_window (D T n : Z) (k : nat) (a b : Z) :
  0 < D → 0 ≤ T →
  ceil_true_div T (D * 1000) = inr n →
  (n - 1) * (D * 1000) < T ≤ n * (D * 1000) →
  segments D T !! k = Some (a, b) →
  Z.of_nat k < n ∧ a = Z.of_nat k * (D * 1000)
  ∧ b = Z.min ((Z.of_nat k + 1) * (D * 1000)) T ∧ 0 ≤ a < b ∧ b ≤ T.
Proof.
  intros HD HT Hn Hceil Hk. rewrite (segments_lookup _ _ _ _ Hn) in Hk.
  destruct (decide (Z.of_nat k < n)) as [Hlt|]; [|discriminate].
  injection Hk as <- <-. repeat split; try lia; nia.
Qed.

(** ** Joining strings *)

Lemma string_app_assoc (a b c : string) : (a +:+ b) +:+ c = a +:+ (b +:+ c).
Proof.
  induction a as [|x a IH]; [done|].
  change (String x ((a +:+ b) +:+ c) = String x (a +:+ (b +:+ c))).
  by rewrite IH.
Qed.

Lemma fold_join_prefix (sep a b : string) (l : list string) :
  fold_left (λ acc y, acc +:+ sep +:+ y) l (a +:+ b)
  = a +:+ fold_left (λ acc y, acc +:+ sep +:+ y) l b.
Proof.
  revert b. induction l as [|z l IH]; intros b; simpl; [done|].
  by rewrite string_app_assoc, IH.
Qed.

Lemma join_cons_cons (sep x y : string) (l : list string) :
  join sep (x :: y :: l) = x +:+ sep +:+ join sep (y :: l).
Proof. simpl. by rewrite !fold_join_prefix. Qed.

Lemma join_space_joined (l : list string) : join " " l = space_joined l.
Proof.
  induction l as [|x [|y l] IH]; [done..|].
  by rewrite join_cons_cons, IH.
Qed.

(** ** Traces of two runs in a row *)

Section TraceLemmas.
Context {Model : Type}.
Implicit Types t : list (event Model).

Lemma printed_app t1 t2 : printed (t1 ++ t2) = printed t1 ++ printed t2.
Proof. apply omap_app. Qed.
Lemma loaded_app t1 t2 : loaded (t1 ++ t2) = loaded t1 ++ loaded t2.
Proof. apply omap_app. Qed.
Lemma decodings_app t1 t2 : decodings (t1 ++ t2) = decodings t1 ++ decodings t2.
Proof. apply omap_app. Qed.
Lemma created_app t1 t2 : created (t1 ++ t2) = created t1 ++ created t2.
Proof. apply omap_app. Qed.
Lemma appended_app t1 t2 : appended (t1 ++ t2) = appended t1 ++ appended t2.
Proof. apply omap_app. Qed.
Lemma exported_app t1 t2 : exported (t1 ++ t2) = exported t1 ++ exported t2.
Proof. apply omap_app. Qed.
Lemma transcribers_app t1 t2 :
  transcribers (t1 ++ t2) = transcribers t1 ++ transcribers t2.
Proof. apply omap_app. Qed.
Lemma results_app t1 t2 : results (t1 ++ t2) = results t1 ++ results t2.
Proof. apply omap_app. Qed.
Lemma removed_app t1 t2 : removed (t1 ++ t2) = removed t1 ++ removed t2.
Proof. apply omap_app. Qed.

(** The check goes through [t1], then through [t2] knowing what [t1]
    appended. *)
Lemma registered_first_app seen t1 t2 :
  registered_first seen (t1 ++ t2)
  = registered_first seen t1 && registered_first (reverse (appended t1) ++ seen) t2.
Proof.
  revert seen. induction t1 as [|e t1 IH]; intros seen; [done|].
  destruct e; simpl; rewrite ?IH; try done.
  - by rewrite reverse_cons, <- app_assoc.
  - by rewrite andb_assoc.
  - by rewrite andb_assoc.
Qed.

End TraceLemmas.

(** ** Relations kept along a run *)

Section Along.
Context {Env Model : Type} `{!Externals Env Model}.
Variable R : State Env Model → State Env Model → list (event Model) → Prop.
Hypothesis R_refl : ∀ s, R s s [].
Hypothesis R_trans :
  ∀ s1 s2 s3 t1 t2, R s1 s2 t1 → R s2 s3 t2 → R s1 s3 (t1 ++ t2).

Lemma along_ret {A} (a : A) : along R (ret a).
Proof. intros s r s' t [= <- <- <-]. apply R_refl. Qed.

Lemma along_gets {A} (f : State Env Model → A) : along R (gets f).
Proof. intros s r s' t [= <- <- <-]. apply R_refl. Qed.

Lemma along_lift {A} (x : res A) : along R (lift x).
Proof. intros s r s' t [= <- <- <-]. apply R_refl. Qed.

Lemma along_bind {A B} (m : M A) (k : A → M B) :
  along R m → (∀ a, along R (k a)) → along R (bind m k).
Proof.
  intros Hm Hk s r s' t. unfold bind.
  destruct (m s) as [[[e|a] s1] t1] eqn:Em.
  - intros [= <- <- <-]. eapply Hm, Em.
  - destruct (k a s1) as [[r2 s2] t2] eqn:Ek. intros [= <- <- <-].
    eapply R_trans; [eapply Hm, Em | eapply Hk, Ek].
Qed.

Lemma along_for_each {A} (l : list A) (f : A → M unit) :
  (∀ x, along R (f x)) → along R (for_each l f).
Proof.
  intros Hf. induction l as [|x l IH]; simpl.
  - apply along_ret.
  - apply along_bind; [apply Hf | intros _; apply IH].
Qed.

End Along.

(** ** The body of the [try] *)

Section Body.
Context {Env Model : Type} `{!Externals Env Model}.
Implicit Types (s : State Env Model) (t : list (event Model)).

Lemma body_inv_refl (model : Model) s : body_inv model s s [].
Proof.
  unfold body_inv; simpl. rewrite app_nil_r.
  repeat split; try done. intros m' Hm'. by apply elem_of_nil in Hm'.
Qed.

Lemma body_inv_trans (model : Model) s1 s2 s3 t1 t2 :
  body_inv model s1 s2 t1 → body_inv model s2 s3 t2 →
  body_inv model s1 s3 (t1 ++ t2).
Proof.
  intros (Hm1 & Hf1 & Hc1 & Hr1 & Hl1 & Hx1 & Ht1)
         (Hm2 & Hf2 & Hc2 & Hr2 & Hl2 & Hx2 & Ht2).
  unfold body_inv.
  rewrite appended_app, created_app, loaded_app, removed_app, transcribers_app.
  repeat split.
  - congruence.
  - by rewrite Hf2, Hf1, app_assoc.
  - congruence.
  - intros seen Hseen. rewrite registered_first_app, (Hr1 _ Hseen). simpl.
    apply Hr2. rewrite Hf1. intros p Hp.
    apply elem_of_app in Hp as [Hp|Hp]; apply elem_of_app.
    + right. by apply Hseen.
    + left. by apply elem_of_reverse.
  - by rewrite Hl1, Hl2.
  - by rewrite Hx1, Hx2.
  - intros m' Hm'. apply elem_of_app in Hm' as [Hm'|Hm']; eauto.
Qed.

Lemma loop_inv_refl (model : Model) s : loop_inv model s s [].
Proof. split; [apply body_inv_refl | simpl; by rewrite app_nil_r]. Qed.

Lemma loop_inv_trans (model : Model) s1 s2 s3 t1 t2 :
  loop_inv model s1 s2 t1 → loop_inv model s2 s3 t2 →
  loop_inv model s1 s3 (t1 ++ t2).
Proof.
  intros [Hb1 Ha1] [Hb2 Ha2]. split; [by eapply body_inv_trans|].
  by rewrite results_app, fmap_app, Ha2, Ha1, app_assoc.
Qed.

(** One turn of the loop, whatever the three library calls do. *)
Lemma process_segment_inv (model : Model) (audio : AudioSegment) (L T n i : Z) :
  along (loop_inv model) (process_segment model audio L T n i).
Proof.
  intros s r s' t.
  unfold process_segment, segment_bounds, print, bind, extern, emit, modify.
  assert (Hseen : ∀ (path : string) seen, bool_decide (path ∈ path :: seen) = true).
  { intros path seen. apply bool_decide_eq_true. by left. }
  destruct (NamedTemporaryFile _ (world s)) as [[e|path] w1]; simpl;
    [|destruct (export _ path "wav" w1) as [[e|[]] w2]; simpl;
      [|destruct (transcribe model [path] w2) as [[e|heard] w3]; simpl]];
    intros [= <- <- <-]; unfold loop_inv, body_inv; simpl; rewrite ?app_nil_r;
    (repeat split; try done;
     try (intros seen _; by rewrite ?Hseen);
     intros m' Hm'; set_unfold; naive_solver).
Qed.

Lemma loop_along (model : Model) (audio : AudioSegment) (L T n : Z) (l : list Z) :
  along (loop_inv model) (for_each l (process_segment model audio L T n)).
Proof.
  apply along_for_each.
  - apply loop_inv_refl.
  - apply loop_inv_trans.
  - intros i. apply process_segment_inv.
Qed.

Lemma along_print (model : Model) (line : string) :
  along (body_inv model) (print (Env := Env) line).
Proof.
  intros s r s' t [= <- <- <-]. unfold body_inv; simpl. rewrite app_nil_r.
  repeat split; try done. intros m' Hm'. by apply elem_of_nil in Hm'.
Qed.

Lemma along_extern (model : Model) {A} (f : World Env → res A * World Env) :
  along (body_inv model) (extern f).
Proof.
  intros s r s' t. unfold extern. destruct (f (world s)) as [x w].
  intros [= <- <- <-]. unfold body_inv; simpl. rewrite app_nil_r.
  repeat split; try done. intros m' Hm'. by apply elem_of_nil in Hm'.
Qed.

Lemma along_emit_neutral (model : Model) (e : event Model) :
  match e with
  | Print _ | Cuda | Decode _ | SetChannels _ | SetFrameRate _ | Result _ => True
  | _ => False
  end →
  along (body_inv model) (emit (Env := Env) e).
Proof.
  intros He s r s' t [= <- <- <-]. unfold body_inv.
  destruct e; try done; simpl; rewrite app_nil_r;
    (repeat split; try done; intros m' Hm'; by apply elem_of_nil in Hm').
Qed.

Lemma along_reset (model : Model) :
  along (body_inv model) (modify (Env := Env) (set_all_transcriptions [])).
Proof.
  intros s r s' t [= <- <- <-]. unfold body_inv; simpl. rewrite app_nil_r.
  repeat split; try done. intros m' Hm'. by apply elem_of_nil in Hm'.
Qed.

Create HintDb along_body_db discriminated.

Local Ltac along_body :=
  repeat first
    [ solve [auto 1 with along_body_db nocore]
    | apply along_bind; [apply body_inv_trans | | intros ? ]
    | apply along_ret; apply body_inv_refl
    | apply along_lift; apply body_inv_refl
    | apply along_gets; apply body_inv_refl
    | apply along_print
    | apply along_extern
    | apply along_reset
    | apply along_emit_neutral; exact I
    | case_match ].

Lemma normalize_along (model : Model) (audio : AudioSegment) :
  along (body_inv model) (normalize audio).
Proof. unfold normalize. along_body. Qed.
Local Hint Resolve normalize_along : along_body_db.

(** Lines 53-90, by the outcome of the division and of the loop. *)
Lemma split_and_transcribe_eq (model : Model) (audio : AudioSegment) (D : Z) s :
  split_and_transcribe model audio D s =
  match ceil_true_div (len audio) (D * 1000) with
  | inl e => (inl e, s, [])
  | inr n =>
      let announce :=
        [Print ("Total audio length: " +:+ fmt_seconds (len audio) +:+ " seconds");
         Print ("Splitting into " +:+ pretty n +:+ " segments of up to "
                +:+ pretty D +:+ " seconds.")] in
      match for_each (range n) (process_segment model audio (D * 1000) (len audio) n)
              (set_all_transcriptions [] s) with
      | (inl e, s1, t1) => (inl e, s1, announce ++ t1)
      | (inr _, s1, t1) =>
          (inr (), s1,
           announce ++ t1 ++ [Print header; Print (join " " (all_transcriptions s1))])
      end
  end.
Proof.
  unfold split_and_transcribe, bind, lift, print, emit, modify, gets.
  destruct (ceil_true_div _ _) as [e|n]; [done|]. simpl.
  destruct (for_each _ _ _) as [[[e|[]] s1] t1]; simpl; done.
Qed.

Lemma split_and_transcribe_along (model : Model) (audio : AudioSegment) (D : Z) :
  along (body_inv model) (split_and_transcribe model audio D).
Proof.
  unfold split_and_transcribe. along_body.
  intros s r s' t Hrun. by apply loop_along in Hrun as [Hbody _].
Qed.
Local Hint Resolve split_and_transcribe_along : along_body_db.

(** Lines 33-90, by what is on disk and what the library calls return. *)
Lemma try_block_eq (model : Model) (path : string) (D : Z) s :
  try_block model path D s =
  if bool_decide (path ∈ disk (world s)) then
    let start := [Print ("Processing audio file: " +:+ basename path); Decode path] in
    match from_file path (world s) with
    | (inl e, w) => (inl e, set_world w s, start)
    | (inr decoded, w) =>
        match normalize decoded (set_world w s) with
        | (inl e, s2, t2) => (inl e, s2, start ++ t2)
        | (inr audio, s2, t2) =>
            match split_and_transcribe model audio D s2 with
            | (r, s3, t3) => (r, s3, start ++ t2 ++ t3)
            end
        end
    end
  else (inr (), s, [Print ("Error: Audio file not found at " +:+ path)]).
Proof.
  unfold try_block, bind, os_path_exists, gets, print, emit, extern.
  destruct (bool_decide _); simpl; [|done].
  destruct (from_file path (world s)) as [[e|decoded] w]; simpl; [done|].
  destruct (normalize decoded _) as [[[e|audio] s2] t2]; simpl; [done|].
  destruct (split_and_transcribe _ _ _ _) as [[r s3] t3]; simpl; done.
Qed.

Lemma try_block_along (model : Model) (path : string) (D : Z) :
  along (body_inv model) (try_block model path D).
Proof.
  unfold try_block, os_path_exists. along_body.
Qed.

End Body.

(** ** The [finally] clause and the whole function *)

Section Whole.
Context {Env Model : Type} `{!Externals Env Model}.
Implicit Types (s : State Env Model) (t : list (event Model)).

Lemma without_nil s : without [] s = s.
Proof.
  destruct s as [[d x] ? ? ?]. unfold without, set_world; simpl.
  do 2 f_equal. set_solver.
Qed.

Lemma without_cons (p : string) (gone : list string) s :
  without gone (without [p] s) = without (p :: gone) s.
Proof.
  destruct s as [[d x] ? ? ?]. unfold without, set_world; simpl.
  do 2 f_equal. set_solver.
Qed.

(** Lines 100-102 for one path: nothing to do when it is absent; when
    it is there, [os.remove] raises or takes it off the disk. *)
Lemma guarded_remove_eq (p : string) s :
  bind (os_path_exists p) (λ present, if present then os_remove p else ret ()) s
  = if bool_decide (p ∈ disk (world s)) then
      match os_remove_error p (world s) with
      | Some e => (inl e, s, [])
      | None => (inr (), without [p] s, [Remove p])
      end
    else (inr (), s, []).
Proof.
  unfold bind, os_remove, os_path_exists, gets, bind, emit, modify, ret, raise. simpl.
  destruct (bool_decide (p ∈ disk (world s))) eqn:Hp; simpl; [|done].
  rewrite Hp. destruct (os_remove_error p (world s)); simpl; [done|].
  do 2 f_equal. unfold without, set_world; simpl. do 2 f_equal. set_solver.
Qed.

(** The loop of lines 99-102 over any list of paths: it stops at the
    first [os.remove] that raises; it removes only paths of the list;
    when it gets to the end none of them is on disk. *)
Lemma cleanup_loop (paths : list string) s :
  ∃ (gone : list string) (fin : res unit),
    for_each paths (λ temp_file_path,
      bind (os_path_exists temp_file_path) (λ present,
        if present then os_remove temp_file_path else ret ())) s
    = (fin, without gone s, Remove <$> gone)
    ∧ gone ⊆ paths
    ∧ (fin = inr () → ∀ p, p ∈ paths → p ∉ disk (world (without gone s)))
    ∧ (∀ e, fin = inl e → ∃ p w, p ∈ paths ∧ os_remove_error p w = Some e).
Proof.
  revert s. induction paths as [|p paths IH]; intros s.
  { exists [], (inr ()). rewrite without_nil.
    split; [done|]. split; [done|]. split; [|done].
    intros _ p Hp. by apply elem_of_nil in Hp. }
  simpl. unfold bind at 1. rewrite guarded_remove_eq.
  destruct (bool_decide (p ∈ disk (world s))) eqn:Hp.
  - destruct (os_remove_error p (world s)) as [e|] eqn:Herr.
    + exists [], (inl e). rewrite without_nil.
      split; [done|]. split; [set_solver|]. split; [done|].
      intros e' [= <-]. exists p, (world s). split; [by left | done].
    + destruct (IH (without [p] s)) as (gone & fin & -> & Hgone & Hoff & Hwhy).
      exists (p :: gone), fin. rewrite without_cons in *.
      split; [done|]. split; [set_solver|]. split.
      * intros Hfin q [->|Hq]%elem_of_cons; [|by apply Hoff].
        simpl. set_solver.
      * intros e Hfin. destruct (Hwhy e Hfin) as (q & w & Hq & Hw).
        exists q, w. split; [by right | done].
  - destruct (IH s) as (gone & fin & -> & Hgone & Hoff & Hwhy).
    exists gone, fin. split; [done|]. split; [set_solver|]. split.
    + intros Hfin q [->|Hq]%elem_of_cons; [|by apply Hoff].
      apply bool_decide_eq_false in Hp. simpl. set_solver.
    + intros e Hfin. destruct (Hwhy e Hfin) as (q & w & Hq & Hw).
      exists q, w. split; [by right | done].
Qed.

(** Lines 97-103. *)
Lemma finally_block_eq s :
  ∃ (gone : list string) (fin : res unit),
    finally_block s
    = (fin, without gone s, (Remove <$> gone) ++ (Print <$> closing fin))
    ∧ cleaned gone fin s.
Proof.
  destruct (cleanup_loop (temp_files s) s) as (gone & fin & Hloop & Hfacts).
  exists gone, fin. split; [|exact Hfacts].
  unfold finally_block. unfold bind at 1, gets at 1. cbv beta iota.
  unfold bind at 1. rewrite Hloop.
  destruct fin as [e|[]]; simpl; [by rewrite app_nil_r | done].
Qed.

(** With no recorded path the [finally] clause only prints its line. *)
Lemma cleaned_nothing (gone : list string) (fin : res unit) s :
  temp_files s = [] → cleaned gone fin s → gone = [] ∧ fin = inr ().
Proof.
  intros Hnone (Hgone & _ & Hwhy). rewrite Hnone in Hgone, Hwhy. split.
  - destruct gone as [|p gone]; [done|]. set_solver.
  - destruct fin as [e|[]]; [|done].
    destruct (Hwhy e eq_refl) as (p & _ & Hp & _). by apply elem_of_nil in Hp.
Qed.

(** When [os.remove] never raises, neither does the [finally] clause. *)
Lemma cleaned_succeeds (gone : list string) (fin : res unit) s :
  removals_succeed → cleaned gone fin s → fin = inr ().
Proof.
  intros Hok (_ & _ & Hwhy). destruct fin as [e|[]]; [|done].
  destruct (Hwhy e eq_refl) as (p & w & _ & Herr). by rewrite Hok in Herr.
Qed.

(** Lines 22-28 when the attribute is already there. *)
Lemma get_asr_model_cached (m : Model) s :
  asr_model s = Some m → get_asr_model s = (inr m, s, []).
Proof. intros Hm. unfold get_asr_model, bind, gets, ret. by rewrite Hm. Qed.

(** Lines 22-28 when it is not: by what the two library calls return. *)
Lemma get_asr_model_cold s :
  asr_model s = None →
  get_asr_model s =
  let start := [Print "Loading Parakeet TDT model..."; Load model_name] in
  match from_pretrained model_name (world s) with
  | (inl e, w) => (inl e, set_world w s, start)
  | (inr m0, w) =>
      match cuda m0 w with
      | (inl e, w') => (inl e, set_world w' s, start ++ [Cuda])
      | (inr m, w') =>
          (inr m, set_asr_model m (set_world w' s),
           start ++ [Cuda; Print "Model loaded and moved to GPU."])
      end
  end.
Proof.
  intros Hm. unfold get_asr_model, bind, gets, print, emit, extern, modify, ret.
  rewrite Hm. simpl.
  destruct (from_pretrained _ _) as [[e|m0] w]; simpl; [done|].
  destruct (cuda m0 w) as [[e|m] w']; simpl; done.
Qed.

(** The whole function, by the outcome of the model lookup, of the
    [try] body and of the [finally] clause. *)
Lemma transcribe_audio_eq (path : string) (D : Z) s :
  ∃ (gone : list string) (fin : res unit),
    transcribe_audio path D s =
    match get_asr_model s with
    | (inl e, s1, t1) => (inl e, s1, t1)
    | (inr m, s1, t1) =>
        match try_block m path D (set_temp_files [] s1) with
        | (r, s2, t2) =>
            (leave fin (after_try r), without gone s2,
             t1 ++ t2 ++ (Print <$> handler_lines r) ++ (Remove <$> gone)
             ++ (Print <$> closing fin))
        end
    end
    ∧ match get_asr_model s with
      | (inl e, s1, t1) => True
      | (inr m, s1, t1) =>
          cleaned gone fin (try_block m path D (set_temp_files [] s1)).1.2
      end.
Proof.
  unfold transcribe_audio, bind at 1.
  destruct (get_asr_model s) as [[[e|m] s1] t1]; [by exists [], (inr ())|].
  unfold bind, modify, try_except_finally. simpl.
  destruct (try_block m path D (set_temp_files [] s1)) as [[r s2] t2]; simpl.
  destruct (finally_block_eq s2) as (gone & fin & Hfin & Hfacts).
  exists gone, fin. split; [|done].
  destruct r as [[msg|msg|msg|msg]|[]];
    cbn [except_clauses handler_lines after_try is_Exception str_exn];
    unfold print, emit, bind; rewrite Hfin; by destruct fin as [e|[]].
Qed.

End Whole.

(** ** The windows a run exports *)

Section Windows.
Context {Env Model : Type} `{!Externals Env Model}.
Implicit Types (s : State Env Model) (t : list (event Model)).

(** A turn of the loop exports at most the window of its index, and
    exactly that one when it does not raise. *)
Lemma process_segment_exported (model : Model) (audio : AudioSegment)
    (L T n i : Z) s r s' t :
  process_segment model audio L T n i s = (r, s', t) →
  exported t `prefix_of` [window audio L T i]
  ∧ (r = inr () → exported t = [window audio L T i]).
Proof.
  unfold process_segment, window, segment_bounds, print, bind, extern, emit, modify.
  destruct (NamedTemporaryFile _ (world s)) as [[e|path] w1]; simpl;
    [|destruct (export _ path "wav" w1) as [[e|[]] w2]; simpl;
      [|destruct (transcribe model [path] w2) as [[e|heard] w3]; simpl]];
    intros [= <- <- <-]; simpl; (split; [|done]); try done.
  apply prefix_nil.
Qed.

Lemma loop_exported (model : Model) (audio : AudioSegment) (L T n : Z)
    (l : list Z) s r s' t :
  for_each l (process_segment model audio L T n) s = (r, s', t) →
  exported t `prefix_of` (window audio L T <$> l)
  ∧ (r = inr () → exported t = window audio L T <$> l).
Proof.
  revert s r s' t. induction l as [|i l IH]; intros s r s' t; simpl.
  - intros [= <- <- <-]. done.
  - unfold bind at 1.
    destruct (process_segment model audio L T n i s) as [[[e|[]] s1] t1] eqn:Estep;
      apply process_segment_exported in Estep as [Hpre Hok].
    + intros [= <- <- <-]. split; [|done].
      etrans; [exact Hpre|]. by exists (window audio L T <$> l).
    + destruct (for_each l _ s1) as [[r2 s2] t2] eqn:Erest.
      apply IH in Erest as [Hpre2 Hok2]. intros [= <- <- <-].
      rewrite exported_app, (Hok eq_refl). simpl. split.
      * by apply prefix_cons.
      * intros Hr. by rewrite (Hok2 Hr).
Qed.

End Windows.

(** ** The parts of a run's trace *)

Section Parts.
Context {Env Model : Type} `{!Externals Env Model}.
Implicit Types (s : State Env Model) (t : list (event Model)).

Lemma prints_parts (lines : list string) :
  let t : list (event Model) := Print <$> lines in
  idle t ∧ loaded t = [] ∧ printed t = lines.
Proof.
  simpl. unfold idle.
  repeat split; try intros seen; induction lines as [|l lines IH]; simpl;
    first [done | exact IH | f_equal; exact IH].
Qed.

Lemma removes_parts (gone : list string) :
  let t : list (event Model) := Remove <$> gone in
  created t = [] ∧ appended t = [] ∧ removed t = gone ∧ exported t = []
  ∧ decodings t = [] ∧ transcribers t = [] ∧ results t = [] ∧ loaded t = []
  ∧ printed t = []
  ∧ ∀ seen, registered_first seen t = true.
Proof.
  simpl.
  repeat split; try intros seen; induction gone as [|g gone IH]; simpl;
    first [done | exact IH | f_equal; exact IH].
Qed.

(** What the lines after the [try] body add to a trace. *)
Lemma after_body_parts (lines gone last_lines : list string) :
  let t : list (event Model) :=
    (Print <$> lines) ++ (Remove <$> gone) ++ (Print <$> last_lines) in
  created t = [] ∧ appended t = [] ∧ removed t = gone ∧ exported t = []
  ∧ decodings t = [] ∧ transcribers t = [] ∧ results t = [] ∧ loaded t = []
  ∧ printed t = lines ++ last_lines
  ∧ ∀ seen, registered_first seen t = true.
Proof.
  simpl.
  destruct (prints_parts lines)
    as ((Hc1 & Ha1 & Hx1 & He1 & Hd1 & Ht1 & Hs1 & Hr1) & Hl1 & Hp1).
  destruct (removes_parts gone)
    as (Hc2 & Ha2 & Hx2 & He2 & Hd2 & Ht2 & Hs2 & Hl2 & Hp2 & Hr2).
  destruct (prints_parts last_lines)
    as ((Hc3 & Ha3 & Hx3 & He3 & Hd3 & Ht3 & Hs3 & Hr3) & Hl3 & Hp3).
  simpl in *.
  rewrite !created_app, !appended_app, !removed_app, !exported_app, !decodings_app,
    !transcribers_app, !results_app, !loaded_app, !printed_app.
  rewrite Hc1, Ha1, Hx1, He1, Hd1, Ht1, Hs1, Hl1, Hp1,
    Hc2, Ha2, Hx2, He2, Hd2, Ht2, Hs2, Hl2, Hp2,
    Hc3, Ha3, Hx3, He3, Hd3, Ht3, Hs3, Hl3, Hp3. simpl.
  rewrite !app_nil_r. repeat split; try done.
  intros seen. rewrite !registered_first_app, Hr1, Hr2, Hr3. done.
Qed.

(** Lines 22-28 touch no file and no local, and call [from_pretrained]
    once exactly when the attribute is missing. *)
Lemma get_asr_model_parts s r s1 t1 :
  get_asr_model s = (r, s1, t1) →
  idle t1
  ∧ temp_files s1 = temp_files s
  ∧ all_transcriptions s1 = all_transcriptions s
  ∧ loaded t1 = (if asr_model s is Some _ then [] else [model_name])
  ∧ match r with
    | inr m => asr_model s1 = Some m ∧ (∀ m0, asr_model s = Some m0 → m = m0 ∧ s1 = s)
    | inl _ => asr_model s = None ∧ asr_model s1 = None
    end.
Proof.
  destruct (asr_model s) as [m0|] eqn:Hm.
  - rewrite (get_asr_model_cached _ _ Hm). intros [= <- <- <-].
    unfold idle. repeat split; try done. congruence.
  - rewrite (get_asr_model_cold _ Hm). simpl.
    destruct (from_pretrained _ _) as [[e|m1] w]; [|destruct (cuda m1 w) as [[e|m] w']];
      intros [= <- <- <-]; unfold idle; simpl; done.
Qed.

(** Lines 43-51 only print and convert. *)
Lemma normalize_parts (audio : AudioSegment) s r s' t :
  normalize audio s = (r, s', t) → idle t ∧ loaded t = [] ∧ s' = s.
Proof.
  unfold normalize, bind, print, emit, lift, ret, idle. intros Hrun.
  repeat case_match; simplify_eq; done.
Qed.

(** A turn of the loop that does not raise keeps one fragment, made
    from what [transcribe] returned. *)
Lemma process_segment_fragment (model : Model) (audio : AudioSegment)
    (L T n i : Z) s s' t :
  process_segment model audio L T n i s = (inr (), s', t) →
  ∃ heard, results t = [heard]
           ∧ all_transcriptions s' = all_transcriptions s ++ [fragment heard].
Proof.
  unfold process_segment, segment_bounds, print, bind, extern, emit, modify.
  destruct (NamedTemporaryFile _ (world s)) as [[e|p] w1]; simpl; [done|].
  destruct (export _ p "wav" w1) as [[e|[]] w2]; simpl; [done|].
  destruct (transcribe model [p] w2) as [[e|heard] w3]; simpl; [done|].
  intros [= <- <-]. by exists heard.
Qed.

(** Lines 53-90: the fragments are those of the results, in order, as
    soon as the division went through. *)
Lemma split_and_transcribe_results (model : Model) (audio : AudioSegment)
    (D : Z) s r s' t :
  split_and_transcribe model audio D s = (r, s', t) →
  (t = [] ∧ s' = s) ∨ all_transcriptions s' = fragment <$> results t.
Proof.
  rewrite split_and_transcribe_eq.
  destruct (ceil_true_div _ _) as [e|n]; [intros [= <- <- <-]; by left|].
  simpl. destruct (for_each _ _ _) as [[[e|[]] s1] t1] eqn:Eloop;
    apply loop_along in Eloop as [_ Hfrag]; simpl in Hfrag;
    intros [= <- <- <-]; right; simpl; [done|].
  by rewrite results_app, app_nil_r.
Qed.

Lemma try_block_results (model : Model) (path : string) (D : Z) s r s' t :
  try_block model path D s = (r, s', t) →
  results t = [] ∨ all_transcriptions s' = fragment <$> results t.
Proof.
  rewrite try_block_eq. destruct (bool_decide _); [|intros [= <- <- <-]; by left].
  simpl. destruct (from_file path (world s)) as [[e|decoded] w];
    [intros [= <- <- <-]; by left|].
  destruct (normalize decoded _) as [[[e|audio] s2] t2] eqn:Enorm;
    apply normalize_parts in Enorm as ((_ & _ & _ & _ & _ & _ & Hres & _) & _ & ->).
  { intros [= <- <- <-]. left. simpl. done. }
  destruct (split_and_transcribe _ _ _ _) as [[r3 s3] t3] eqn:Esplit.
  apply split_and_transcribe_results in Esplit as [[-> ->]|Hfrag];
    intros [= <- <- <-]; simpl; rewrite results_app, Hres; simpl; [by left | by right].
Qed.

(** Loading and using the model over one call. *)
Lemma transcribe_audio_model (path : string) (D : Z) s :
  let '(r, s', t) := transcribe_audio path D s in
  loaded t = (if asr_model s is Some _ then [] else [model_name])
  ∧ (∀ m, asr_model s = Some m → asr_model s' = Some m)
  ∧ (∀ m, asr_model s' = Some m → ∀ m', m' ∈ transcribers t → m' = m)
  ∧ (∀ m0 w m w',
       asr_model s = None →
       from_pretrained model_name (world s) = (inr m0, w) →
       cuda m0 w = (inr m, w') →
       asr_model s' = Some m).
Proof.
  destruct (transcribe_audio_eq path D s) as (gone & fin & -> & _).
  destruct (get_asr_model s) as [[[e|m] s1] t1] eqn:Emodel.
  - pose proof Emodel as Hparts.
    apply get_asr_model_parts in Hparts
      as ((_ & _ & _ & _ & _ & Htr1 & _) & _ & _ & Hl1 & Hcold & Hnone).
    rewrite Htr1. repeat split; try done.
    + congruence.
    + congruence.
    + intros m0 w m w' Hs Hload Hcuda.
      rewrite (get_asr_model_cold _ Hs) in Emodel. simpl in Emodel.
      rewrite Hload, Hcuda in Emodel. done.
  - pose proof Emodel as Hparts.
    apply get_asr_model_parts in Hparts
      as ((_ & _ & _ & _ & _ & Htr1 & _) & _ & _ & Hl1 & Hm1 & Hsame).
    destruct (try_block m path D (set_temp_files [] s1)) as [[r s2] t2] eqn:Ebody.
    apply try_block_along in Ebody as (Hm2 & _ & _ & _ & Hl2 & _ & Htr2).
    simpl in Hm2.
    pose proof (after_body_parts (handler_lines r) gone
                  (closing fin)) as Htail.
    cbv zeta in Htail.
    set (tail := (Print <$> handler_lines r) ++ _ ++ _) in *.
    destruct Htail as (_ & _ & _ & _ & _ & Htr3 & _ & Hl3 & _).
    rewrite !loaded_app, !transcribers_app, Hl1, Hl2, Hl3, Htr1, Htr3, !app_nil_r.
    simpl. rewrite Hm2, Hm1. repeat split; try done.
    + intros m0 Hs. destruct (Hsame _ Hs) as [-> _]. done.
    + intros m0 [= <-]. done.
    + intros m0 w m' w' Hs Hload Hcuda.
      rewrite (get_asr_model_cold _ Hs) in Emodel. simpl in Emodel.
      rewrite Hload, Hcuda in Emodel. congruence.
Qed.

(** Calls made once the model is cached. *)
Lemma calls_cached (args : list (string * Z)) s (m : Model) :
  asr_model s = Some m →
  let '(s', ts) := calls args s in
  asr_model s' = Some m
  ∧ loaded (concat ts) = []
  ∧ ∀ m', m' ∈ transcribers (concat ts) → m' = m.
Proof.
  revert s. induction args as [|[path D] args IH]; intros s Hs; simpl.
  - repeat split; try done. intros m' Hm'. by apply elem_of_nil in Hm'.
  - pose proof (transcribe_audio_model path D s) as Hcall.
    destruct (transcribe_audio path D s) as [[r s1] t1].
    destruct Hcall as (Hl1 & Hkeep & Huse & _). rewrite Hs in Hl1.
    specialize (Hkeep _ Hs). specialize (Huse _ Hkeep).
    specialize (IH s1 Hkeep). destruct (calls args s1) as [s2 ts].
    destruct IH as (Hm2 & Hl2 & Huse2). simpl.
    rewrite loaded_app, transcribers_app, Hl1, Hl2. repeat split; try done.
    intros m' Hm'. apply elem_of_app in Hm' as [Hm'|Hm']; eauto.
Qed.

End Parts.

(** * The claims *)

Section Claims.
Context {Env Model : Type} `{!Externals Env Model}.
Implicit Types (s : State Env Model) (t : list (event Model)).



(** C3, as the code has it.  Lines 81-84 test the list of results, not
    the text: the fragment kept for a segment is the text of the first
    result when [transcribe] returned a non-empty list, also when that
    text is empty, and the string "[Transcription Failed for Segment]"
    when it returned an empty list; a turn of the loop
    that does not raise appends exactly that fragment; and after any
    run in which [transcribe] returned at all, [all_transcriptions] is
    the list of these fragments in the order of the calls.  So when the
    model returns nothing for the second of three segments, the
    fragments are the first text, the placeholder and the third text. *)
Theorem C3_fragments (path : string) (D : Z) s :
  (∀ first rest, fragment (first :: rest) = text first)
  ∧ fragment [] = "[Transcription Failed for Segment]"
  ∧ (∀ (model : Model) audio L T n i s0 s1 t0,
       process_segment model audio L T n i s0 = (inr (), s1, t0) →
       ∃ heard, results t0 = [heard]
                ∧ all_transcriptions s1 = all_transcriptions s0 ++ [fragment heard])
  ∧ let '(r, s', t) := transcribe_audio path D s in
    (results t ≠ [] → all_transcriptions s' = fragment <$> results t)
    ∧ (∀ first0 rest0 first2 rest2,
         results t = [first0 :: rest0; []; first2 :: rest2] →
         all_transcriptions s'
         = [text first0; "[Transcription Failed for Segment]"; text first2]).
Proof.
  split; [done|]. split; [done|]. split.
  { intros model audio L T n i s0 s1 t0. apply process_segment_fragment. }
  assert (Hmain : let '(r, s', t) := transcribe_audio path D s in
                  results t ≠ [] → all_transcriptions s' = fragment <$> results t).
  { destruct (transcribe_audio_eq path D s) as (gone & fin & -> & _).
    destruct (get_asr_model s) as [[[e|m] s1] t1] eqn:Emodel;
      apply get_asr_model_parts in Emodel
        as ((_ & _ & _ & _ & _ & _ & Hres1 & _) & _).
    { by rewrite Hres1. }
    destruct (try_block m path D (set_temp_files [] s1)) as [[r s2] t2] eqn:Ebody.
    apply try_block_results in Ebody.
    pose proof (after_body_parts (Model := Model) (handler_lines r) gone
                  (closing fin)) as Htail.
    cbv zeta in Htail.
    set (tail := (Print <$> handler_lines r) ++ _ ++ _) in *.
    destruct Htail as (_ & _ & _ & _ & _ & _ & Hres3 & _).
    rewrite !results_app, Hres1, Hres3, app_nil_r. simpl.
    destruct Ebody as [->|Hfrag]; done. }
  destruct (transcribe_audio path D s) as [[r s'] t]. split; [done|].
  intros first0 rest0 first2 rest2 Hres. rewrite Hmain, Hres; [done|].
  by rewrite Hres.
Qed.

(** C4, as the code has it.  The model lookup of lines 22-28 comes
    before the [try]: when it raises, the exception leaves
    [transcribe_audio] as it is, nothing more is printed.  Once the
    model is there, every exception of a class under [Exception] raised
    in the [try] body is caught: the function prints the two FFmpeg
    lines for a [FileNotFoundError] and "An error occurred: ..." for
    any other one.  The [finally] clause then runs ([fin] is its
    outcome); it raises only what an [os.remove] on a recorded path
    raises, and nothing when [os.remove] raises on no path.  When it
    does not raise, the clean-up line is printed and the function
    returns normally, unless the body raised an exception of a class
    outside [Exception], which leaves the function.  When it raises,
    its exception leaves the function and the clean-up line is not
    printed.  No other exception leaves the function. *)
Theorem C4_exceptions_caught_inside_try (path : string) (D : Z) s :
  (∀ e s1 t1,
     get_asr_model s = (inl e, s1, t1) →
     transcribe_audio path D s = (inl e, s1, t1))
  ∧ (∀ model s1 t1 body s2 t2,
       get_asr_model s = (inr model, s1, t1) →
       try_block model path D (set_temp_files [] s1) = (body, s2, t2) →
       ∃ r s' t (fin : res unit),
         transcribe_audio path D s = (r, s', t)
         ∧ (∀ e, fin = inl e → ∃ p w, p ∈ temp_files s2 ∧ os_remove_error p w = Some e)
         ∧ (removals_succeed → fin = inr ())
         ∧ printed t = printed t1 ++ printed t2 ++ handler_lines body
                       ++ (if fin is inr _ then ["Temporary files cleaned up."] else [])
         ∧ (∀ e, body = inl e → is_Exception e = true →
              handler_lines body =
              match e with
              | FileNotFoundError _ =>
                  ["Error: Required library (like FFmpeg for some audio formats) might not be installed or found.";
                   "Please ensure FFmpeg is installed and in your system's PATH."]
              | _ => ["An error occurred: " +:+ str_exn e]
              end)
         ∧ (fin = inr () → body = inr () → r = inr ())
         ∧ (fin = inr () → ∀ e, body = inl e → is_Exception e = true → r = inr ())
         ∧ (∀ e, fin = inl e → r = inl e)
         ∧ (∀ e, r = inl e → (body = inl e ∧ is_Exception e = false) ∨ fin = inl e)).
Proof.
  destruct (transcribe_audio_eq path D s) as (gone & fin & Hrun & Hfacts). split.
  - intros e s1 t1 Hmodel. by rewrite Hrun, Hmodel.
  - intros model s1 t1 body s2 t2 Hmodel Hbody.
    rewrite Hmodel, Hbody in Hrun, Hfacts. simpl in Hfacts.
    eexists _, _, _, fin. split; [exact Hrun|].
    split; [apply Hfacts|].
    split; [intros Hok; by apply (cleaned_succeeds gone fin s2)|].
    pose proof (after_body_parts (Model := Model) (handler_lines body) gone
                  (closing fin)) as Htail.
    cbv zeta in Htail.
    set (tail := (Print <$> handler_lines body) ++ _ ++ _) in *.
    destruct Htail as (_ & _ & _ & _ & _ & _ & _ & _ & Hprinted & _).
    rewrite !printed_app, Hprinted. split; [done|]. split.
    { intros e -> He. destruct e; simpl in *; done. }
    split; [by intros -> ->|]. split.
    { intros -> e -> He. simpl. by rewrite He. }
    split; [by intros e ->|].
    intros e. destruct fin as [e'|[]]; simpl; [intros [= <-]; by right|].
    destruct body as [[]|[]]; simpl; intros [= <-]; by left.
Qed.


(** C6. The final transcription is the fragments in segment order with
    exactly one space between two consecutive ones: [join " "] is
    [space_joined]; "hello" and "world" give "hello world"; and a run of
    lines 53-90 that does not raise prints, last, the header and the
    join of the fragments of the results in the order of the calls. *)
Theorem C6_space_joined :
  join " " ["hello"; "world"] = "hello world"
  ∧ (∀ fragments, join " " fragments = space_joined fragments)
  ∧ (∀ x y rest, join " " (x :: y :: rest) = x +:+ " " +:+ join " " (y :: rest))
  ∧ (∀ (model : Model) audio D s s' t,
       split_and_transcribe model audio D s = (inr (), s', t) →
       all_transcriptions s' = fragment <$> results t
       ∧ ∃ before,
           printed t = before ++ [header; join " " (fragment <$> results t)]).
Proof.
  split; [done|]. split; [apply join_space_joined|].
  split; [intros x y rest; apply join_cons_cons|].
  intros model audio D s s' t Hrun.
  pose proof Hrun as Hfrag. apply split_and_transcribe_results in Hfrag.
  rewrite split_and_transcribe_eq in Hrun.
  destruct (ceil_true_div _ _) as [e|n]; [done|]. simpl in Hrun.
  destruct (for_each _ _ _) as [[[e|[]] s1] t1]; [done|].
  injection Hrun as <- <-.
  destruct Hfrag as [[[=] _]|Hfrag]. split; [done|]. rewrite <- Hfrag.
  simpl. rewrite printed_app. simpl. by eexists (_ :: _ :: _).
Qed.

(** C7, as the code has it.  Once the model is there (cached, or loaded
    without error), a path that is not on disk makes [transcribe_audio]
    print "Error: Audio file not found at <path>", then the clean-up
    line, and return normally: nothing is decoded, no segment is cut or
    exported, [transcribe] is not called, no file is made or removed. *)
Theorem C7_missing_file (path : string) (D : Z) s (model : Model) s1 t1 :
  get_asr_model s = (inr model, s1, t1) →
  path ∉ disk (world s1) →
  ∃ t,
    transcribe_audio path D s = (inr (), set_temp_files [] s1, t1 ++ t)
    ∧ t = [Print ("Error: Audio file not found at " +:+ path);
           Print "Temporary files cleaned up."]
    ∧ decodings (t1 ++ t) = [] ∧ exported (t1 ++ t) = []
    ∧ transcribers (t1 ++ t) = [] ∧ created (t1 ++ t) = []
    ∧ removed (t1 ++ t) = [].
Proof.
  intros Hmodel Hpath.
  destruct (transcribe_audio_eq path D s) as (gone & fin & Hrun & Hfacts).
  rewrite Hmodel in Hrun, Hfacts. rewrite try_block_eq in Hrun, Hfacts.
  simpl in Hrun, Hfacts. rewrite (bool_decide_eq_false_2 _ Hpath) in Hrun, Hfacts.
  simpl in Hfacts. apply cleaned_nothing in Hfacts as [-> ->]; [|done].
  apply get_asr_model_parts in Hmodel as ((Hc1 & _ & Hx1 & He1 & Hd1 & Ht1 & _) & _).
  eexists. split; [|split; [reflexivity|]].
  - rewrite Hrun, without_nil. done.
  - rewrite decodings_app, exported_app, transcribers_app, created_app, removed_app.
    rewrite Hc1, Hx1, He1, Hd1, Ht1. done.
Qed.

(** C8. For an audio that has one channel and a frame rate of 16000,
    lines 43-51 print nothing, call neither [set_channels] nor
    [set_frame_rate], and go on with the same audio in the same
    state. *)
Theorem C8_normalize_is_noop (audio : AudioSegment) s :
  channels audio = 1 → frame_rate audio = 16000 →
  normalize audio s = (inr audio, s, []).
Proof.
  intros Hch Hfr. unfold normalize, bind, ret.
  destruct (decide (channels audio > 1)); [lia|]. simpl.
  destruct (decide (frame_rate audio ≠ 16000)); [done|]. done.
Qed.

(** C9, as the code has it.  The model is kept in the attribute
    [transcribe_audio.asr_model] of the process, which is set only once
    [from_pretrained] and [.cuda()] have both returned.  A call made
    while the attribute is missing calls [from_pretrained] exactly
    once, and when the load goes through the attribute holds the loaded
    model, which is the one the call transcribes with.  A call made
    while the attribute holds a model does not call [from_pretrained],
    leaves the attribute as it is and transcribes with that model; so
    does every sequence of calls.  Hence in a process whose first call
    loads the model without error, any number of calls later
    [from_pretrained] has been called once in all and every
    [transcribe] was made on that one model.  A call whose load raises
    leaves the attribute missing, so that the next call loads again. *)
Theorem C9_model_loaded_once :
  (∀ path D s,
     asr_model s = None →
     let '(r, s', t) := transcribe_audio path D s in
     loaded t = [model_name]
     ∧ ∀ m0 w m w',
         from_pretrained model_name (world s) = (inr m0, w) →
         cuda m0 w = (inr m, w') →
         asr_model s' = Some m ∧ ∀ m', m' ∈ transcribers t → m' = m)
  ∧ (∀ path D s (m : Model),
       asr_model s = Some m →
       let '(r, s', t) := transcribe_audio path D s in
       loaded t = [] ∧ asr_model s' = Some m
       ∧ ∀ m', m' ∈ transcribers t → m' = m)
  ∧ (∀ args s (m : Model),
       asr_model s = Some m →
       let '(s', ts) := calls args s in
       asr_model s' = Some m ∧ loaded (concat ts) = []
       ∧ ∀ m', m' ∈ transcribers (concat ts) → m' = m)
  ∧ (∀ path D rest s m0 w (m : Model) w',
       asr_model s = None →
       from_pretrained model_name (world s) = (inr m0, w) →
       cuda m0 w = (inr m, w') →
       let '(s', ts) := calls ((path, D) :: rest) s in
       loaded (concat ts) = [model_name] ∧ asr_model s' = Some m
       ∧ ∀ m', m' ∈ transcribers (concat ts) → m' = m)
  ∧ (∀ path D s e s1 t1,
       get_asr_model s = (inl e, s1, t1) →
       let '(r, s', t) := transcribe_audio path D s in
       r = inl e ∧ loaded t = [model_name] ∧ asr_model s' = None).
Proof.
  split; [|split; [|split; [|split]]].
  - intros path D s Hs. pose proof (transcribe_audio_model path D s) as Hcall.
    destruct (transcribe_audio path D s) as [[r s'] t].
    destruct Hcall as (Hl & _ & Huse & Hload). rewrite Hs in Hl. split; [done|].
    intros m0 w m w' H1 H2. specialize (Hload _ _ _ _ Hs H1 H2). split; eauto.
  - intros path D s m Hs. pose proof (transcribe_audio_model path D s) as Hcall.
    destruct (transcribe_audio path D s) as [[r s'] t].
    destruct Hcall as (Hl & Hkeep & Huse & _). rewrite Hs in Hl.
    repeat split; eauto.
  - intros args s m Hs. by apply calls_cached.
  - intros path D rest s m0 w m w' Hs H1 H2. simpl.
    pose proof (transcribe_audio_model path D s) as Hcall.
    destruct (transcribe_audio path D s) as [[r s1] t1].
    destruct Hcall as (Hl & _ & Huse & Hload). rewrite Hs in Hl.
    specialize (Hload _ _ _ _ Hs H1 H2). specialize (Huse _ Hload).
    pose proof (calls_cached rest s1 m Hload) as Hrest.
    destruct (calls rest s1) as [s2 ts]. destruct Hrest as (Hm2 & Hl2 & Huse2).
    simpl. rewrite loaded_app, transcribers_app, Hl, Hl2. repeat split; try done.
    intros m' Hm'. apply elem_of_app in Hm' as [Hm'|Hm']; eauto.
  - intros path D s e s1 t1 Hmodel.
    destruct (transcribe_audio_eq path D s) as (gone & fin & -> & _).
    rewrite Hmodel.
    apply get_asr_model_parts in Hmodel as (_ & _ & _ & Hl & Hcold & Hnone).
    by rewrite Hcold in Hl.
Qed.

(** C10, as the code has it.  Once the model is there (cached, or loaded
    without error), a call with [segment_length_sec = 0] on a path that
    is on disk and that decodes and normalises without error divides by
    zero at line 56: the [ZeroDivisionError] is caught by the clause of
    line 95, "An error occurred: division by zero" is printed, then the
    clean-up line, and the function returns normally; no temporary file
    is made, nothing is exported, [transcribe] is not called. *)
Theorem C10_zero_segment_length (path : string) s (model : Model) s1 t1
    (decoded audio : AudioSegment) (w : World Env) s2 t2 :
  get_asr_model s = (inr model, s1, t1) →
  path ∈ disk (world s1) →
  from_file path (world s1) = (inr decoded, w) →
  normalize decoded (set_world w (set_temp_files [] s1)) = (inr audio, s2, t2) →
  ceil_true_div (len audio) (0 * 1000) = inl (ZeroDivisionError "division by zero")
  ∧ ∃ t,
      transcribe_audio path 0 s = (inr (), set_world w (set_temp_files [] s1), t)
      ∧ t = t1 ++ [Print ("Processing audio file: " +:+ basename path); Decode path]
               ++ t2 ++ [Print "An error occurred: division by zero";
                         Print "Temporary files cleaned up."]
      ∧ created t = [] ∧ exported t = [] ∧ transcribers t = [] ∧ results t = []
      ∧ removed t = [].
Proof.
  intros Hmodel Hpath Hdecode Hnorm. split; [apply ceil_true_div_zero|].
  destruct (transcribe_audio_eq path 0 s) as (gone & fin & Hrun & Hfacts).
  rewrite Hmodel in Hrun, Hfacts. rewrite try_block_eq in Hrun, Hfacts.
  cbv zeta in Hrun, Hfacts.
  change (world (set_temp_files [] s1)) with (world s1) in Hrun, Hfacts.
  rewrite (bool_decide_eq_true_2 _ Hpath), Hdecode, Hnorm in Hrun, Hfacts.
  rewrite split_and_transcribe_eq in Hrun, Hfacts. simpl in Hrun, Hfacts.
  pose proof Hnorm as Hn.
  apply normalize_parts in Hn as ((Hc2 & _ & Hx2 & He2 & _ & Ht2 & Hr2 & _) & _ & ->).
  apply cleaned_nothing in Hfacts as [-> ->]; [|done].
  apply get_asr_model_parts in Hmodel
    as ((Hc1 & _ & Hx1 & He1 & _ & Ht1 & Hr1 & _) & _).
  eexists. split; [|split; [reflexivity|]].
  - rewrite Hrun, without_nil. simpl. by rewrite app_nil_r.
  - rewrite !created_app, !exported_app, !transcribers_app, !results_app, !removed_app.
    rewrite Hc1, Hx1, He1, Ht1, Hr1, Hc2, Hx2, He2, Ht2, Hr2. done.
Qed.

End Claims.

(** * More properties of the code *)

Section Extras.
Context {Env Model : Type} `{!Externals Env Model}.
Implicit Types (s : State Env Model) (t : list (event Model)).

Lemma transcribed_app t1 t2 : transcribed (t1 ++ t2) = transcribed t1 ++ transcribed t2.
Proof. apply omap_app. Qed.

(** [transcribed] and [transcribers] read the same events. *)
Lemma transcribed_length t : length (transcribed t) = length (transcribers t).
Proof. induction t as [|[] t IH]; simpl; congruence. Qed.

Lemma transcribed_none t : transcribers t = [] → transcribed t = [].
Proof.
  intros Hnone. apply nil_length_inv. by rewrite transcribed_length, Hnone.
Qed.

(** The four ways a turn of the loop can end: the temporary file could
    not be made, the export raised, the model raised, or the turn went
    through. *)
Lemma process_segment_shape (model : Model) (audio : AudioSegment)
    (L T n i : Z) s r s' t :
  process_segment model audio L T n i s = (r, s', t) →
  (∃ e, r = inl e ∧ created t = [] ∧ transcribed t = [] ∧ results t = []
        ∧ printed t = [])
  ∨ (∃ e p, r = inl e ∧ created t = [p] ∧ transcribed t = [] ∧ results t = []
            ∧ printed t = [])
  ∨ (∃ e p, r = inl e ∧ created t = [p] ∧ transcribed t = [[p]] ∧ results t = []
            ∧ printed t = [progress_line L T n i])
  ∨ (∃ p heard, r = inr () ∧ created t = [p] ∧ transcribed t = [[p]]
                ∧ results t = [heard] ∧ printed t = [progress_line L T n i]).
Proof.
  unfold process_segment, progress_line, segment_bounds, print, bind, extern,
    emit, modify.
  destruct (NamedTemporaryFile _ (world s)) as [[e|p] w1]; simpl;
    [|destruct (export _ p "wav" w1) as [[e|[]] w2]; simpl;
      [|destruct (transcribe model [p] w2) as [[e|heard] w3]; simpl]];
    intros [= <- <- <-]; simpl.
  - left. by exists e.
  - right; left. by exists e, p.
  - right; right; left. by exists e, p.
  - right; right; right. by exists p, heard.
Qed.

(** The loop of lines 63-84 over any list of indices: one progress line
    per call of [transcribe], each call on the one temporary file of
    its segment, and no segment started before the previous one gave
    its result. *)
Lemma loop_shape (model : Model) (audio : AudioSegment) (L T n : Z)
    (l : list Z) s r s' t :
  for_each l (process_segment model audio L T n) s = (r, s', t) →
  printed t = progress_line L T n <$> take (length (transcribed t)) l
  ∧ transcribed t `prefix_of` ((λ p, [p]) <$> created t)
  ∧ (length (results t) ≤ length (transcribed t) ≤ length (created t))%nat
  ∧ (length (created t) ≤ length (results t) + 1)%nat
  ∧ (length (created t) ≤ length l)%nat
  ∧ (r = inr () →
       length (results t) = length l ∧ length (transcribed t) = length l
       ∧ length (created t) = length l).
Proof.
  revert s r s' t. induction l as [|i l IH]; intros s r s' t; simpl.
  { intros [= <- <- <-]. simpl. repeat split; try done; lia. }
  unfold bind at 1.
  destruct (process_segment model audio L T n i s) as [[r1 s1] t1] eqn:Estep.
  apply process_segment_shape in Estep
    as [(e & -> & Hc & Hx & Hr & Hp)|[(e & p & -> & Hc & Hx & Hr & Hp)
       |[(e & p & -> & Hc & Hx & Hr & Hp)|(p & heard & -> & Hc & Hx & Hr & Hp)]]].
  1-3: intros [= <- <- <-]; rewrite Hc, Hx, Hr, Hp; simpl;
       (repeat split; try done; try lia; try apply prefix_nil).
  destruct (for_each l _ s1) as [[r2 s2] t2] eqn:Erest.
  apply IH in Erest as (Hp2 & Hpre2 & Hle2 & Hle2' & Hlen2 & Hok2).
  intros [= <- <- <-].
  rewrite printed_app, transcribed_app, created_app, results_app, Hc, Hx, Hr, Hp.
  simpl. rewrite Hp2.
  split; [done|]. split; [by apply prefix_cons|].
  split; [lia|]. split; [lia|]. split; [lia|].
  intros Hr2. destruct (Hok2 Hr2) as (? & ? & ?). lia.
Qed.

(** X1. Whatever a run of lines 53-90 exports, for a positive segment
    length and an audio whose length in milliseconds is not negative
    and is below 2^53 (where the float quotient of line 56 is never
    rounded to a greater count): the exported
    segments are the first windows of [segments], in order, also when
    the run raises; each one is cut from the audio given, is not empty,
    lies within the audio and is at most [segment_length_sec] seconds
    long; and every window but the last is exactly that long. *)
Theorem X1_segment_lengths (model : Model) (audio : AudioSegment) (D : Z) s r s' t :
  0 < D → 0 ≤ len audio < 2 ^ 53 →
  split_and_transcribe model audio D s = (r, s', t) →
  exported t `prefix_of`
    ((λ ab, Build_Segment audio ab.1 ab.2) <$> segments D (len audio))
  ∧ (∀ seg, seg ∈ exported t →
       source seg = audio
       ∧ 0 ≤ start_time seg < end_time seg ∧ end_time seg ≤ len audio
       ∧ end_time seg - start_time seg ≤ D * 1000)
  ∧ (∀ (k : nat) a b,
       segments D (len audio) !! k = Some (a, b) →
       (S k < length (segments D (len audio)))%nat →
       b - a = D * 1000).
Proof.
  intros HD [HT HT53] Hrun.
  destruct (ceil_true_div_small (len audio) (D * 1000) ltac:(lia) ltac:(lia))
    as (n & Hn & Hceil & _).
  assert (Hwin : ∀ (k : nat) a b,
            segments D (len audio) !! k = Some (a, b) →
            Z.of_nat k < n ∧ a = Z.of_nat k * (D * 1000)
            ∧ b = Z.min ((Z.of_nat k + 1) * (D * 1000)) (len audio)
            ∧ 0 ≤ a < b ∧ b ≤ len audio).
  { intros k a b. destruct Hceil as [->|Hceil].
    - by rewrite (segments_eq _ _ _ Hn).
    - by apply (segments_window D (len audio) n). }
  assert (Hpre : exported t `prefix_of`
            ((λ ab, Build_Segment audio ab.1 ab.2) <$> segments D (len audio))).
  { rewrite split_and_transcribe_eq, Hn in Hrun. simpl in Hrun.
    rewrite (segments_eq _ _ _ Hn), <- list_fmap_compose.
    destruct (for_each _ _ _) as [[[e|[]] s1] t1] eqn:Eloop;
      apply loop_exported in Eloop as [Hpre _]; injection Hrun as <- <- <-; simpl.
    - exact Hpre.
    - by rewrite exported_app, app_nil_r. }
  split; [exact Hpre|]. split.
  - intros seg Hseg.
    assert (Hin : seg ∈ (λ ab : Z * Z, Build_Segment audio ab.1 ab.2)
                           <$> segments D (len audio)).
    { destruct Hpre as [rest ->]. apply elem_of_app. by left. }
    apply list_elem_of_fmap in Hin as ([a b] & -> & Hab).
    apply list_elem_of_lookup in Hab as [k Hk].
    apply Hwin in Hk as (_ & -> & -> & Hab & HbT). simpl.
    split; [done|]. split; [lia|]. split; [lia|]. lia.
  - intros k a b Hk Hlen. apply Hwin in Hk as (_ & -> & -> & _).
    rewrite (segments_eq _ _ _ Hn), length_fmap, range_length in Hlen.
    assert (Hfull : (Z.of_nat k + 1) * (D * 1000) ≤ (n - 1) * (D * 1000)) by nia.
    lia.
Qed.



(** The files made, the calls of [transcribe] and their results in a
    run of the [try] body are those of its loop, when it gets there. *)
Lemma try_block_loop (model : Model) (path : string) (D : Z) s r s' t :
  try_block model path D s = (r, s', t) →
  (created t = [] ∧ transcribed t = [] ∧ results t = [])
  ∨ ∃ audio n s0 rl sl tl,
      for_each (range n) (process_segment model audio (D * 1000) (len audio) n) s0
      = (rl, sl, tl)
      ∧ created t = created tl ∧ transcribed t = transcribed tl
      ∧ results t = results tl.
Proof.
  rewrite try_block_eq. destruct (bool_decide _); cbv beta iota zeta;
    [|intros [= <- <- <-]; by left].
  destruct (from_file path _) as [[e|decoded] w]; cbv beta iota;
    [intros [= <- <- <-]; by left|].
  destruct (normalize decoded _) as [[[e|audio] s2] t2] eqn:Enorm; cbv beta iota;
    apply normalize_parts in Enorm as ((Hc2 & _ & _ & _ & _ & Ht2 & Hr2 & _) & _ & ->);
    pose proof (transcribed_none _ Ht2) as Hx2.
  { intros Hrun. left. apply (f_equal snd) in Hrun. simpl in Hrun. subst t.
    change (created t2 = [] ∧ transcribed t2 = [] ∧ results t2 = []). done. }
  rewrite split_and_transcribe_eq.
  destruct (ceil_true_div _ _) as [e|n]; cbv beta iota zeta.
  { intros Hrun. left. apply (f_equal snd) in Hrun. simpl in Hrun. subst t.
    rewrite app_nil_r.
    change (created t2 = [] ∧ transcribed t2 = [] ∧ results t2 = []). done. }
  destruct (for_each _ _ _) as [[rl sl] tl] eqn:Eloop.
  intros Hrun. right. eexists audio, n, _, rl, sl, tl. split; [exact Eloop|].
  assert (∃ t3 : list string,
            t = [Print ("Processing audio file: " +:+ basename path);
                          Decode path] ++ t2
                         ++ fmap (M := list) Print (announcement (len audio) n D)
                         ++ tl ++ fmap (M := list) Print t3) as [t3 ->].
  { destruct rl as [e|[]]; apply (f_equal snd) in Hrun; simpl in Hrun; subst t.
    - exists []. simpl. by rewrite app_nil_r.
    - by exists [header; join " " (all_transcriptions sl)]. }
  destruct (prints_parts (Model := Model) (announcement (len audio) n D))
    as ((Hc4 & _ & _ & _ & _ & Ht4 & Hr4 & _) & _).
  destruct (prints_parts (Model := Model) t3)
    as ((Hc5 & _ & _ & _ & _ & Ht5 & Hr5 & _) & _).
  cbv zeta in Hc4, Ht4, Hr4, Hc5, Ht5, Hr5.
  rewrite !created_app, !transcribed_app, !results_app, Hc2, Hr2, Hx2,
    Hc4, Hr4, (transcribed_none _ Ht4), Hc5, Hr5, (transcribed_none _ Ht5).
  simpl. by rewrite !app_nil_r.
Qed.

(** The same for the whole function. *)
Lemma run_loop (path : string) (D : Z) s :
  let '(r, s', t) := transcribe_audio path D s in
  (created t = [] ∧ transcribed t = [] ∧ results t = [])
  ∨ ∃ (model : Model) audio n s0 rl sl tl,
      for_each (range n) (process_segment model audio (D * 1000) (len audio) n) s0
      = (rl, sl, tl)
      ∧ created t = created tl ∧ transcribed t = transcribed tl
      ∧ results t = results tl.
Proof.
  destruct (transcribe_audio_eq path D s) as (gone & fin & -> & _).
  destruct (get_asr_model s) as [[[e|m] s1] t1] eqn:Emodel;
    apply get_asr_model_parts in Emodel
      as ((Hc1 & _ & _ & _ & _ & Ht1 & Hr1 & _) & _).
  { left. by rewrite Hc1, Hr1, (transcribed_none _ Ht1). }
  destruct (try_block m path D (set_temp_files [] s1)) as [[r s2] t2] eqn:Ebody.
  pose proof (after_body_parts (Model := Model) (handler_lines r) gone
                (closing fin)) as Htail.
  cbv zeta in Htail.
  set (tail := (Print <$> handler_lines r) ++ _ ++ _) in *.
  destruct Htail as (Hc3 & _ & _ & _ & _ & Ht3 & Hr3 & _).
  rewrite !created_app, !transcribed_app, !results_app, Hc1, Hr1, Hc3, Hr3,
    (transcribed_none _ Ht1), (transcribed_none _ Ht3), !app_nil_r. simpl.
  apply try_block_loop in Ebody
    as [?|(audio & n & s0 & rl & sl & tl & Eloop & ?)]; [by left|].
  right. by exists m, audio, n, s0, rl, sl, tl.
Qed.

(** X4. In every run of [transcribe_audio] the segments go through the
    libraries one at a time: [transcribe] is only called on a list of
    one path, the temporary file of its segment, in the order the files
    were made; and a temporary file is made only once every earlier
    segment has given its result, so that after a call that raises no
    further segment is started. *)
Theorem X4_one_segment_at_a_time (path : string) (D : Z) s :
  let '(r, s', t) := transcribe_audio path D s in
  transcribed t `prefix_of` ((λ p, [p]) <$> created t)
  ∧ (length (results t) ≤ length (transcribed t))%nat
  ∧ (length (transcribed t) ≤ length (created t))%nat
  ∧ (length (created t) ≤ length (results t) + 1)%nat.
Proof.
  pose proof (run_loop path D s) as Hloop.
  destruct (transcribe_audio path D s) as [[r s'] t].
  destruct Hloop as [(-> & -> & ->)
                    |(model & audio & n & s0 & rl & sl & tl & Eloop & -> & -> & ->)].
  - simpl. repeat split; try done; lia.
  - apply loop_shape in Eloop as (_ & Hpre & Hle & Hle' & _). repeat split; try done; lia.
Qed.

(** X5. An exception of a class outside [Exception] raised in the [try]
    body (the user interrupting the run) meets no [except] clause: no
    error line is printed, but the [finally] clause still runs ([fin]
    is its outcome) and the model stays cached.  When no [os.remove]
    raises in it, the clean-up line is printed, no temporary file of
    the run is left on disk, and the exception of the body leaves the
    function.  When an [os.remove] raises, that exception leaves the
    function instead and the clean-up line is not printed. *)
Theorem X5_interrupt_still_cleans_up (path : string) (D : Z) s (model : Model)
    s1 t1 (e : exn) s2 t2 :
  get_asr_model s = (inr model, s1, t1) →
  try_block model path D (set_temp_files [] s1) = (inl e, s2, t2) →
  is_Exception e = false →
  ∃ r s' t (fin : res unit),
    transcribe_audio path D s = (r, s', t)
    ∧ printed t = printed t1 ++ printed t2
                  ++ (if fin is inr _ then ["Temporary files cleaned up."] else [])
    ∧ asr_model s' = Some model
    ∧ (removals_succeed → fin = inr ())
    ∧ (fin = inr () → r = inl e ∧ ∀ p, p ∈ created t → p ∉ disk (world s'))
    ∧ (∀ e', fin = inl e' →
         r = inl e' ∧ ∃ p w, p ∈ temp_files s2 ∧ os_remove_error p w = Some e').
Proof.
  intros Hmodel Hbody He. destruct e as [msg|msg|msg|msg]; try discriminate He.
  destruct (transcribe_audio_eq path D s) as (gone & fin & Hrun & Hfacts).
  rewrite Hmodel, Hbody in Hrun, Hfacts. simpl in Hfacts.
  apply get_asr_model_parts in Hmodel as ((Hc1 & _) & _ & _ & _ & Hattr & _).
  apply try_block_along in Hbody as (Hm2 & Hf2 & Hc2 & _).
  simpl in Hm2, Hf2.
  pose proof (after_body_parts (Model := Model)
                (handler_lines (inl (BaseException msg))) gone
                (closing fin)) as Htail.
  cbv zeta in Htail.
  set (tail := (Print <$> handler_lines (inl (BaseException msg))) ++ _ ++ _) in *.
  destruct Htail as (Hc3 & _ & _ & _ & _ & _ & _ & _ & Hp3 & _).
  eexists _, _, _, fin. split; [exact Hrun|].
  rewrite !printed_app, !created_app, Hp3, Hc1, Hc2, Hc3, app_nil_r.
  simpl. split; [done|]. split; [congruence|].
  split; [intros Hok; by apply (cleaned_succeeds gone fin s2)|].
  destruct Hfacts as (_ & Hoff & Hwhy). split.
  - intros ->. split; [done|]. intros p Hp. apply (Hoff eq_refl). by rewrite Hf2.
  - intros e' ->. split; [done|]. by apply Hwhy.
Qed.

(** X6. A load that raises caches nothing.  The exception leaves
    [transcribe_audio] after the line "Loading Parakeet TDT model..."
    alone was printed, the attribute is still missing and the locals
    are untouched; so the next call, whatever its arguments, calls
    [from_pretrained] again. *)
Theorem X6_failed_load_is_retried (path : string) (D : Z) s (e : exn) s1 t1 :
  get_asr_model s = (inl e, s1, t1) →
  transcribe_audio path D s = (inl e, s1, t1)
  ∧ asr_model s1 = None
  ∧ printed t1 = ["Loading Parakeet TDT model..."]
  ∧ created t1 = [] ∧ removed t1 = []
  ∧ ∀ path' D', loaded (transcribe_audio path' D' s1).2 = [model_name].
Proof.
  intros Hmodel.
  destruct (transcribe_audio_eq path D s) as (gone & fin & Hrun & _).
  rewrite Hmodel in Hrun. split; [exact Hrun|].
  pose proof Hmodel as Hparts.
  apply get_asr_model_parts in Hparts
    as ((Hc1 & _ & Hx1 & _) & _ & _ & _ & Hcold & Hnone).
  split; [exact Hnone|]. split.
  { rewrite (get_asr_model_cold _ Hcold) in Hmodel. cbv zeta in Hmodel.
    destruct (from_pretrained _ _) as [[e0|m0] w]; [by injection Hmodel as <- <- <-|].
    destruct (cuda m0 w) as [[e0|m] w']; [by injection Hmodel as <- <- <-|done]. }
  split; [exact Hc1|]. split; [exact Hx1|].
  intros path' D'. pose proof (transcribe_audio_model path' D' s1) as Hnext.
  destruct (transcribe_audio path' D' s1) as [[r' s'] t'].
  destruct Hnext as (Hl & _). by rewrite Hnone in Hl.
Qed.

(** X7. When the two conversions do what pydub documents, the audio
    that leaves lines 43-51 has a frame rate of 16000 and at most one
    channel (exactly one when the input had at least one), and putting
    it through lines 43-51 again changes nothing: no line printed, no
    conversion called. *)
Theorem X7_normalize_reaches_target (audio audio' : AudioSegment) s s' t :
  conversions_as_documented →
  normalize audio s = (inr audio', s', t) →
  frame_rate audio' = 16000
  ∧ channels audio' ≤ 1
  ∧ (1 ≤ channels audio → channels audio' = 1)
  ∧ normalize audio' s' = (inr audio', s', []).
Proof.
  intros [Hch Hfr] Hrun.
  assert (Htarget : frame_rate audio' = 16000 ∧ channels audio' ≤ 1
                    ∧ (1 ≤ channels audio → channels audio' = 1)).
  { unfold normalize, bind, print, emit, lift, ret in Hrun.
    destruct (decide (channels audio > 1)) as [Hmany|Hfew]; simpl in Hrun.
    - destruct (set_channels 1 audio) as [e|mono] eqn:Emono; [done|].
      apply Hch in Emono as [Hc1 Hf1]. simpl in Hrun.
      destruct (decide (frame_rate mono ≠ 16000)) as [Hrate|Hrate]; simpl in Hrun.
      + destruct (set_frame_rate 16000 mono) as [e|out] eqn:Eout; [done|].
        apply Hfr in Eout as [Hf2 Hc2]. injection Hrun as <- <- <-. lia.
      + injection Hrun as <- <- <-. lia.
    - destruct (decide (frame_rate audio ≠ 16000)) as [Hrate|Hrate]; simpl in Hrun.
      + destruct (set_frame_rate 16000 audio) as [e|out] eqn:Eout; [done|].
        apply Hfr in Eout as [Hf2 Hc2]. injection Hrun as <- <- <-. lia.
      + injection Hrun as <- <- <-. lia. }
  destruct Htarget as (Hrate & Hone & Hexact). repeat split; try done.
  unfold normalize, bind, ret.
  destruct (decide (channels audio' > 1)); [lia|]. simpl.
  destruct (decide (frame_rate audio' ≠ 16000)); done.
Qed.

Lemma kept_refl (p : string) s : kept p s s [].
Proof. split; [done|]. apply not_elem_of_nil. Qed.

Lemma kept_trans (p : string) s1 s2 s3 t1 t2 :
  kept p s1 s2 t1 → kept p s2 s3 t2 → kept p s1 s3 (t1 ++ t2).
Proof.
  intros [Hd1 Hc1] [Hd2 Hc2]. split; [by rewrite Hd2|].
  rewrite created_app. by intros [?|?]%elem_of_app.
Qed.

Lemma kept_emit (p : string) (e : event Model) :
  created [e] = [] → along (kept p) (emit (Env := Env) e).
Proof.
  intros He s r s' t [= <- <- <-]. split; [done|]. rewrite He. apply not_elem_of_nil.
Qed.

Lemma kept_modify (p : string) (f : State Env Model → State Env Model) :
  (∀ s, world (f s) = world s) → along (kept p) (modify f).
Proof.
  intros Hf s r s' t [= <- <- <-]. split; [by rewrite Hf|]. apply not_elem_of_nil.
Qed.

Lemma kept_extern (p : string) {A} (f : World Env → res A * World Env) :
  keeps p f → along (kept p) (extern (Model := Model) f).
Proof.
  intros Hf s r s' t. unfold extern. specialize (Hf (world s)).
  destruct (f (world s)) as [x w]. intros [= <- <- <-].
  split; [exact Hf|]. apply not_elem_of_nil.
Qed.

(** A turn of the loop under libraries that keep [p]. *)
Lemma process_segment_kept (p : string) (model : Model) (audio : AudioSegment)
    (L T n i : Z) :
  libraries_keep p → along (kept p) (process_segment model audio L T n i).
Proof.
  intros (_ & _ & _ & Htmp & Hname & Hexp & Htr) s r s' t.
  unfold process_segment, segment_bounds, print, bind, extern, emit, modify.
  specialize (Htmp ("_" +:+ pretty i +:+ ".wav") (world s)).
  specialize (Hname ("_" +:+ pretty i +:+ ".wav") (world s)).
  destruct (NamedTemporaryFile _ (world s)) as [[e|q] w1]; simpl in *.
  { intros [= <- <- <-]. split; [exact Htmp|]. apply not_elem_of_nil. }
  assert (Hqp : q ≠ p) by (intros ->; by apply Hname).
  assert (Hq : p ∉ [q]) by (by intros ->%list_elem_of_singleton).
  specialize (Hexp (Build_Segment audio (i * L) (Z.min ((i + 1) * L) T))
                q "wav" Hqp w1).
  destruct (export _ q "wav" w1) as [[e|[]] w2]; simpl in *.
  { intros [= <- <- <-]. split; [by rewrite Hexp|done]. }
  specialize (Htr model [q] w2).
  destruct (transcribe model [q] w2) as [[e|heard] w3]; simpl in *;
    intros [= <- <- <-]; (split; [by rewrite Htr, Hexp|done]).
Qed.

Local Ltac along_kept :=
  repeat first
    [ apply along_bind; [apply kept_trans | | intros ? ]
    | apply along_ret; apply kept_refl
    | apply along_lift; apply kept_refl
    | apply along_gets; apply kept_refl
    | apply kept_emit; reflexivity
    | apply kept_modify; reflexivity
    | apply kept_extern; solve [auto]
    | case_match ].

Lemma get_asr_model_kept (p : string) :
  libraries_keep p → along (kept p) get_asr_model.
Proof. intros (Hload & Hcuda & _). unfold get_asr_model, print. along_kept. Qed.

Lemma try_block_kept (p : string) (model : Model) (path : string) (D : Z) :
  libraries_keep p → along (kept p) (try_block model path D).
Proof.
  intros Hlib. pose proof Hlib as (_ & _ & Hfile & _).
  unfold try_block, os_path_exists, normalize, split_and_transcribe, print.
  along_kept.
  apply along_for_each; [apply kept_refl | apply kept_trans |].
  intros i. by apply process_segment_kept.
Qed.

(** X8. A file that the libraries leave alone, and whose path is never
    given out as the name of a temporary file, is on disk after a call
    of [transcribe_audio] exactly when it was before: the function
    removes nothing but its own temporary files, whatever the outcome
    of the run. *)
Theorem X8_other_files_untouched (p path : string) (D : Z) s :
  libraries_keep p →
  let '(r, s', t) := transcribe_audio path D s in
  (p ∈ disk (world s') ↔ p ∈ disk (world s))
  ∧ (p ∉ created t) ∧ (p ∉ removed t).
Proof.
  intros Hlib.
  destruct (transcribe_audio_eq path D s) as (gone & fin & -> & Hfacts).
  destruct (get_asr_model s) as [[[e|m] s1] t1] eqn:Emodel.
  { pose proof Emodel as [Hd Hc]%(get_asr_model_kept _ Hlib).
    apply get_asr_model_parts in Emodel as ((_ & _ & Hx & _) & _).
    rewrite Hx. split; [exact Hd|]. split; [exact Hc|]. apply not_elem_of_nil. }
  pose proof Emodel as [Hd1 Hc1]%(get_asr_model_kept _ Hlib).
  apply get_asr_model_parts in Emodel as ((Hcr1 & _ & Hx1 & _) & _).
  destruct (try_block m path D (set_temp_files [] s1)) as [[r s2] t2] eqn:Ebody.
  pose proof Ebody as [Hd2 Hc2]%(try_block_kept _ _ _ _ Hlib).
  apply try_block_along in Ebody as (_ & Hf2 & Hcr2 & _ & _ & Hx2 & _).
  simpl in Hf2, Hd2, Hfacts. destruct Hfacts as (Hgone & _).
  pose proof (after_body_parts (Model := Model) (handler_lines r) gone
                (closing fin)) as Htail.
  cbv zeta in Htail.
  set (tail := (Print <$> handler_lines r) ++ _ ++ _) in *.
  destruct Htail as (Hcr3 & _ & Hx3 & _).
  rewrite !created_app, !removed_app, Hcr1, Hx1, Hx2, Hcr3, Hx3, app_nil_r. simpl.
  assert (Hnot : p ∉ temp_files s2) by (by rewrite Hf2, <- Hcr2).
  split; [|split; [done|]].
  - rewrite <- Hd1, <- Hd2. unfold without; simpl.
    rewrite elem_of_difference, elem_of_list_to_set.
    split; [tauto|]. intros Hp. split; [done|]. intros Hg. apply Hnot. by apply Hgone.
  - intros Hp. apply Hnot. by apply Hgone.
Qed.

(** X9. Joining is compatible with putting two lists of fragments end
    to end: for two lists that are not empty, the join of the whole is
    the two joins with one separator between them. *)
Theorem X9_join_app (sep : string) (l1 l2 : list string) :
  l1 ≠ [] → l2 ≠ [] →
  join sep (l1 ++ l2) = join sep l1 +:+ sep +:+ join sep l2.
Proof.
  intros H1 H2. destruct l1 as [|x l1]; [done|]. clear H1.
  destruct l2 as [|z l2]; [done|]. clear H2.
  revert x. induction l1 as [|y l1 IH]; intros x.
  - change ([x] ++ z :: l2) with (x :: z :: l2). by rewrite join_cons_cons.
  - rewrite <- !app_comm_cons, !join_cons_cons, app_comm_cons, IH.
    by rewrite !string_app_assoc.
Qed.

End Extras.

(** * The claims on concrete runs *)

Module Runs.
Import Demo.





(** C3, as stated, fails on a result whose text is empty: the code
    keeps the empty text, where the claim has the placeholder.  On
    three segments of silence the fragments are three empty strings and
    the final transcription is two spaces. *)
Lemma C3_counterexample :
  fragment [ {| text := "" |} ] = ""
  ∧ fragment [ {| text := "" |} ] ≠ "[Transcription Failed for Segment]"
  ∧ let '(r, s', t) :=
      transcribe_audio (Externals0 := externals silence) "talk.wav" 60 warm in
    results t = [[ {| text := "" |} ]; [ {| text := "" |} ]; [ {| text := "" |} ]]
    ∧ all_transcriptions s' = [""; ""; ""]
    ∧ "  " ∈ printed t.
Proof.
  split; [reflexivity|]. split; [discriminate|].
  destruct (transcribe_audio "talk.wav" 60 warm) as [[r s'] t] eqn:Erun.
  vm_compute in Erun. injection Erun as <- <- <-.
  split; [reflexivity|]. split; [reflexivity|].
  apply (bool_decide_eq_true_1 _). vm_compute. reflexivity.
Qed.

(** C3 as amended, on a run of three segments in which the model
    returns nothing for the second one. *)
Lemma C3_witness :
  let '(r, s', t) :=
    transcribe_audio (Externals0 := externals gap_in_the_middle) "talk.wav" 60 fresh in
  results t = [[ {| text := "hello" |} ]; []; [ {| text := "world" |} ]]
  ∧ all_transcriptions s' = ["hello"; "[Transcription Failed for Segment]"; "world"].
Proof.
  pose proof (@C3_fragments nat nat (externals gap_in_the_middle)
                "talk.wav" 60 fresh) as (_ & _ & _ & Hrun).
  destruct (transcribe_audio "talk.wav" 60 fresh) as [[r s'] t] eqn:Erun.
  destruct Hrun as [_ Hthree].
  assert (Hres : results t = [[ {| text := "hello" |} ]; []; [ {| text := "world" |} ]]).
  { vm_compute in Erun. injection Erun as <- <- <-. reflexivity. }
  split; [exact Hres|]. exact (Hthree _ _ _ _ Hres).
Defined.

(** C4, as stated, fails in two places.  On a machine without a GPU
    [.cuda()] raises on the first call, before the [try], and the
    exception leaves [transcribe_audio] without any error message
    printed.  And when [os.remove] raises in the [finally] clause, here
    after an inference failure that was caught and reported, that
    exception leaves the function. *)
Lemma C4_counterexample :
  transcribe_audio (Externals0 := externals no_gpu) "talk.wav" 60 fresh
  = (inl (Exception "Torch not compiled with CUDA enabled"), fresh,
     [Print "Loading Parakeet TDT model..."; Load "nvidia/parakeet-tdt-0.6b-v2"; Cuda])
  ∧ let '(r, s', t) :=
      transcribe_audio (Externals0 := externals (locked inference_breaks))
        "talk.wav" 60 warm in
    r = inl (Exception "[WinError 32] The process cannot access the file because it is being used by another process: '/tmp/tmp1_1.wav'")
    ∧ printed t
      = ["Processing audio file: talk.wav";
         "Audio has 2 channels. Converting to mono.";
         "Audio has sample rate 44100 Hz. Resampling to 16000 Hz.";
         "Total audio length: 150.00 seconds";
         "Splitting into 3 segments of up to 60 seconds.";
         "Transcribing segment 1/3 (0.00s - 60.00s)...";
         "Transcribing segment 2/3 (60.00s - 120.00s)...";
         "An error occurred: CUDA out of memory"].
Proof.
  split; [vm_compute; reflexivity|].
  destruct (transcribe_audio "talk.wav" 60 warm) as [[r s'] t] eqn:Erun.
  vm_compute in Erun. injection Erun as <- <- <-.
  split; reflexivity.
Qed.

(** C4 as amended, on the run in which inference breaks at the second
    segment and [os.remove] raises on no path: the message is printed
    and the function returns. *)
Lemma C4_witness :
  ∃ r s' t,
    transcribe_audio (Externals0 := externals inference_breaks) "talk.wav" 60 fresh
    = (r, s', t)
    ∧ r = inr ()
    ∧ last (printed t) = Some "Temporary files cleaned up."
    ∧ "An error occurred: CUDA out of memory" ∈ printed t.
Proof.
  destruct (@C4_exceptions_caught_inside_try nat nat (externals inference_breaks)
              "talk.wav" 60 fresh) as [_ Hcaught].
  destruct (get_asr_model (Externals0 := externals inference_breaks) fresh)
    as [[[e|model] s1] t1] eqn:Emodel; [by vm_compute in Emodel|].
  destruct (try_block (Externals0 := externals inference_breaks)
              model "talk.wav" 60 (set_temp_files [] s1))
    as [[body s2] t2] eqn:Ebody.
  destruct (Hcaught _ _ _ _ _ _ eq_refl Ebody)
    as (r & s' & t & fin & Hrun & _ & Hok & Hprinted & Hlines & _ & Hreturns & _).
  vm_compute in Emodel. injection Emodel as <- <- <-.
  vm_compute in Ebody. injection Ebody as <- <- <-.
  assert (Hfin : fin = inr ()) by (apply Hok; intros p w; reflexivity).
  subst fin. pose proof (Hreturns eq_refl _ eq_refl eq_refl) as ->.
  exists (inr ()), s', t. split; [exact Hrun|]. split; [reflexivity|].
  rewrite Hprinted, (Hlines _ eq_refl eq_refl). split.
  - vm_compute. reflexivity.
  - do 2 (apply elem_of_app; right). apply elem_of_app; left.
    apply list_elem_of_singleton. reflexivity.
Defined.


(** C6 on the run of three segments. *)
Lemma C6_witness :
  ∃ s' t,
    split_and_transcribe (Externals0 := externals gap_in_the_middle)
      7%nat {| channels := 1; frame_rate := 16000; len := 150000 |} 60 warm
    = (inr (), s', t)
    ∧ last (printed t) = Some "hello [Transcription Failed for Segment] world".
Proof.
  destruct (@C6_space_joined nat nat (externals gap_in_the_middle))
    as (_ & _ & _ & Hrun).
  destruct (split_and_transcribe (Externals0 := externals gap_in_the_middle)
              7%nat {| channels := 1; frame_rate := 16000; len := 150000 |} 60 warm)
    as [[r s'] t] eqn:Erun.
  assert (Hr : r = inr ()) by (vm_compute in Erun; by injection Erun as <- <- <-).
  subst r. destruct (Hrun _ _ _ _ _ _ Erun) as (_ & before & Hprinted).
  exists s', t. split; [reflexivity|]. rewrite Hprinted, last_app. simpl.
  vm_compute in Erun. injection Erun as <- <-. reflexivity.
Defined.

(** C7, as stated, fails on a machine without a GPU: the first call
    raises at line 25, before the path is looked at, and no "not found"
    line is printed. *)
Lemma C7_counterexample :
  ("nope.wav" ∉ disk (world fresh))
  ∧ transcribe_audio (Externals0 := externals no_gpu) "nope.wav" 60 fresh
    = (inl (Exception "Torch not compiled with CUDA enabled"), fresh,
       [Print "Loading Parakeet TDT model..."; Load "nvidia/parakeet-tdt-0.6b-v2"; Cuda]).
Proof.
  split; [|vm_compute; reflexivity].
  apply (bool_decide_eq_false_1 _). vm_compute. reflexivity.
Qed.

(** C7 as amended, on a first call whose load goes through. *)
Lemma C7_witness :
  ∃ s',
    transcribe_audio (Externals0 := externals gap_in_the_middle) "nope.wav" 60 fresh
    = (inr (), s',
       [Print "Loading Parakeet TDT model..."; Load "nvidia/parakeet-tdt-0.6b-v2"; Cuda;
        Print "Model loaded and moved to GPU.";
        Print "Error: Audio file not found at nope.wav";
        Print "Temporary files cleaned up."]).
Proof.
  destruct (@C7_missing_file nat nat (externals gap_in_the_middle) "nope.wav" 60 fresh
              7%nat (set_asr_model 7%nat fresh)
              [Print "Loading Parakeet TDT model..."; Load "nvidia/parakeet-tdt-0.6b-v2";
               Cuda; Print "Model loaded and moved to GPU."])
    as (t & Hrun & -> & _).
  - vm_compute. reflexivity.
  - apply (bool_decide_eq_false_1 _). vm_compute. reflexivity.
  - eexists. exact Hrun.
Defined.

(** C8 on a mono 16 kHz audio of one second. *)
Lemma C8_witness :
  normalize (Externals0 := externals gap_in_the_middle)
    {| channels := 1; frame_rate := 16000; len := 1000 |} warm
  = (inr {| channels := 1; frame_rate := 16000; len := 1000 |}, warm, []).
Proof.
  apply (@C8_normalize_is_noop nat nat (externals gap_in_the_middle)); reflexivity.
Defined.

(** C9, as stated, fails when the load raises.  On a machine without
    a GPU the first call caches nothing, and the second call calls
    [from_pretrained] again: two loads, and still no model. *)
Lemma C9_counterexample :
  let '(s', ts) :=
    calls (Externals0 := externals no_gpu)
      [("talk.wav", 60); ("talk.wav", 60)] fresh in
  loaded (concat ts) = ["nvidia/parakeet-tdt-0.6b-v2"; "nvidia/parakeet-tdt-0.6b-v2"]
  ∧ asr_model s' = None
  ∧ transcribers (concat ts) = [].
Proof. vm_compute. repeat split; reflexivity. Qed.

(** C9 as amended, on a process that makes three calls, the first of
    which loads the model: one load in all. *)
Lemma C9_witness :
  let '(s', ts) :=
    calls (Externals0 := externals gap_in_the_middle)
      [("talk.wav", 60); ("nope.wav", 60); ("talk.wav", 100)] fresh in
  loaded (concat ts) = ["nvidia/parakeet-tdt-0.6b-v2"]
  ∧ asr_model s' = Some 7%nat
  ∧ ∀ m', m' ∈ transcribers (concat ts) → m' = 7%nat.
Proof.
  destruct (@C9_model_loaded_once nat nat (externals gap_in_the_middle))
    as (_ & _ & _ & Hprocess & _).
  exact (Hprocess "talk.wav" 60 [("nope.wav", 60); ("talk.wav", 100)] fresh
           7%nat (world fresh) 7%nat (world fresh) eq_refl eq_refl eq_refl).
Defined.

(** C10, as stated, fails on a machine without a GPU: the first call
    raises at line 25 and line 56 is never reached. *)
Lemma C10_counterexample :
  "talk.wav" ∈ disk (world fresh)
  ∧ from_file (Externals := externals no_gpu) "talk.wav" (world fresh)
    = (inr stereo, world fresh)
  ∧ transcribe_audio (Externals0 := externals no_gpu) "talk.wav" 0 fresh
    = (inl (Exception "Torch not compiled with CUDA enabled"), fresh,
       [Print "Loading Parakeet TDT model..."; Load "nvidia/parakeet-tdt-0.6b-v2"; Cuda]).
Proof.
  split; [|split; [reflexivity | vm_compute; reflexivity]].
  apply (bool_decide_eq_true_1 _). vm_compute. reflexivity.
Qed.

(** C10 as amended, on a process in which the model is cached. *)
Lemma C10_witness :
  ∃ s',
    transcribe_audio (Externals0 := externals gap_in_the_middle) "talk.wav" 0 warm
    = (inr (), s',
       [Print "Processing audio file: talk.wav"; Decode "talk.wav";
        Print "Audio has 2 channels. Converting to mono."; SetChannels 1;
        Print "Audio has sample rate 44100 Hz. Resampling to 16000 Hz.";
        SetFrameRate 16000;
        Print "An error occurred: division by zero";
        Print "Temporary files cleaned up."]).
Proof.
  destruct (@C10_zero_segment_length nat nat (externals gap_in_the_middle)
              "talk.wav" warm 7%nat warm [] stereo
              {| channels := 1; frame_rate := 16000; len := 150000 |} (world warm)
              (set_temp_files [] warm)
              [Print "Audio has 2 channels. Converting to mono."; SetChannels 1;
               Print "Audio has sample rate 44100 Hz. Resampling to 16000 Hz.";
               SetFrameRate 16000])
    as (_ & t & Hrun & -> & _).
  - reflexivity.
  - apply (bool_decide_eq_true_1 _). vm_compute. reflexivity.
  - reflexivity.
  - vm_compute. reflexivity.
  - eexists. exact Hrun.
Defined.

End Runs.

(** * The further properties on concrete runs *)

Module MoreRuns.
Import Demo.

(** Mono, 16 kHz, two and a half minutes. *)
Definition ready : AudioSegment := {| channels := 1; frame_rate := 16000; len := 150000 |}.

(** X1 on a run that breaks at the second segment: what was exported
    until then is at most a minute long. *)
Lemma X1_witness :
  let '(r, s', t) :=
    split_and_transcribe (Externals0 := externals inference_breaks) 7%nat ready 60 warm in
  length (exported t) = 2%nat
  ∧ ∀ seg, seg ∈ exported t → end_time seg - start_time seg ≤ 60 * 1000.
Proof.
  destruct (split_and_transcribe (Externals0 := externals inference_breaks)
              7%nat ready 60 warm) as [[r s'] t] eqn:Erun.
  destruct (@X1_segment_lengths nat nat (externals inference_breaks)
              7%nat ready 60 warm r s' t) as (_ & Hlen & _);
    [lia | simpl; lia | exact Erun |].
  split.
  - vm_compute in Erun. injection Erun as <- <- <-. reflexivity.
  - intros seg Hseg. by apply Hlen.
Defined.



(** X4 on the run that breaks at the second segment: two files made,
    two calls, one result. *)
Lemma X4_witness :
  let '(r, s', t) :=
    transcribe_audio (Externals0 := externals inference_breaks) "talk.wav" 60 fresh in
  transcribed t = [["/tmp/tmp0_0.wav"]; ["/tmp/tmp1_1.wav"]]
  ∧ transcribed t `prefix_of` ((λ p, [p]) <$> created t)
  ∧ (length (created t) ≤ length (results t) + 1)%nat.
Proof.
  pose proof (@X4_one_segment_at_a_time nat nat (externals inference_breaks)
                "talk.wav" 60 fresh) as Hpaced.
  destruct (transcribe_audio "talk.wav" 60 fresh) as [[r s'] t] eqn:Erun.
  destruct Hpaced as (Hpre & _ & _ & Hle).
  split; [|split; [exact Hpre | exact Hle]].
  vm_compute in Erun. injection Erun as <- <- <-. reflexivity.
Defined.

(** X5 on a run interrupted during the second segment, where
    [os.remove] raises on no path. *)
Lemma X5_witness :
  ∃ s' t,
    transcribe_audio (Externals0 := externals interrupted) "talk.wav" 60 warm
    = (inl (BaseException "KeyboardInterrupt"), s', t)
    ∧ last (printed t) = Some "Temporary files cleaned up."
    ∧ (∀ p, p ∈ created t → p ∉ disk (world s')).
Proof.
  destruct (try_block (Externals0 := externals interrupted)
              7%nat "talk.wav" 60 (set_temp_files [] warm))
    as [[body s2] t2] eqn:Ebody.
  assert (Hb : body = inl (BaseException "KeyboardInterrupt")).
  { vm_compute in Ebody. by injection Ebody as <- <- <-. }
  subst body.
  destruct (@X5_interrupt_still_cleans_up nat nat (externals interrupted)
              "talk.wav" 60 warm 7%nat warm []
              (BaseException "KeyboardInterrupt") s2 t2)
    as (r & s' & t & fin & Hrun & Hprinted & _ & Hok & Hclean & _);
    [reflexivity | exact Ebody | reflexivity |].
  assert (Hfin : fin = inr ()) by (apply Hok; intros p w; reflexivity).
  subst fin. destruct (Hclean eq_refl) as [-> Hgone].
  exists s', t. split; [exact Hrun|]. split; [|exact Hgone].
  rewrite Hprinted, app_assoc. apply last_snoc.
Defined.

(** X6 on a process that cannot fetch the model. *)
Lemma X6_witness :
  transcribe_audio (Externals0 := externals no_network) "talk.wav" 60 fresh
  = (inl (Exception "Connection error"), fresh,
     [Print "Loading Parakeet TDT model..."; Load "nvidia/parakeet-tdt-0.6b-v2"])
  ∧ loaded (transcribe_audio (Externals0 := externals no_network) "talk.wav" 60 fresh).2
    = ["nvidia/parakeet-tdt-0.6b-v2"].
Proof.
  destruct (@X6_failed_load_is_retried nat nat (externals no_network)
              "talk.wav" 60 fresh (Exception "Connection error") fresh
              [Print "Loading Parakeet TDT model...";
               Load "nvidia/parakeet-tdt-0.6b-v2"])
    as (Hrun & _ & _ & _ & _ & Hnext); [reflexivity|].
  split; [exact Hrun | exact (Hnext "talk.wav" 60)].
Defined.

(** The conversions of [Demo] do what pydub documents. *)
Lemma demo_conversions (sc : Scenario) :
  conversions_as_documented (Externals0 := externals sc).
Proof. split; intros x a a' [= <-]; done. Qed.

(** X7 on the stereo 44.1 kHz audio. *)
Lemma X7_witness :
  normalize (Externals0 := externals gap_in_the_middle) ready warm
  = (inr ready, warm, []).
Proof.
  destruct (@X7_normalize_reaches_target nat nat (externals gap_in_the_middle)
              stereo ready warm warm
              [Print "Audio has 2 channels. Converting to mono."; SetChannels 1;
               Print "Audio has sample rate 44100 Hz. Resampling to 16000 Hz.";
               SetFrameRate 16000])
    as (_ & _ & _ & Hagain); [apply demo_conversions | reflexivity | exact Hagain].
Defined.

(** The name of a temporary file of [Demo] is not that of the input. *)
Lemma temp_name_not_input (rest : string) : "talk.wav" ≠ "/tmp/tmp" +:+ rest.
Proof. unfold String.app. simpl. discriminate. Qed.

(** The libraries of [Demo] leave the input file alone. *)
Lemma demo_keeps_input (sc : Scenario) :
  libraries_keep (Externals0 := externals sc) "talk.wav".
Proof.
  unfold libraries_keep, keeps; simpl.
  split; [done|]. split; [done|]. split; [done|]. split.
  { intros suffix w. rewrite elem_of_union, elem_of_singleton.
    pose proof (temp_name_not_input (pretty (env w) +:+ suffix)). tauto. }
  split.
  { intros suffix w Hname.
    assert (Hpath := f_equal (λ r, match r with inr q => q | inl _ => "" end) Hname).
    simpl in Hpath. by apply (temp_name_not_input _ (eq_sym Hpath)). }
  split; [|done].
  intros seg path format Hpath w. rewrite elem_of_union, elem_of_singleton.
  split; [intros [Heq|?]; [by destruct Hpath | done] | by right].
Qed.

(** X8: the input file is still there after a run, also a run that
    breaks. *)
Lemma X8_witness :
  let '(r, s', t) :=
    transcribe_audio (Externals0 := externals inference_breaks) "talk.wav" 60 fresh in
  "talk.wav" ∈ disk (world s').
Proof.
  pose proof (@X8_other_files_untouched nat nat (externals inference_breaks)
                "talk.wav" "talk.wav" 60 fresh (demo_keeps_input _)) as Hkept.
  destruct (transcribe_audio "talk.wav" 60 fresh) as [[r s'] t].
  destruct Hkept as (Hdisk & _). apply Hdisk. by apply elem_of_singleton.
Defined.

(** X9 on three fragments. *)
Lemma X9_witness :
  join " " (["hello"; "big"] ++ ["world"]) = join " " ["hello"; "big"] +:+ " " +:+ join " " ["world"].
Proof. by apply X9_join_app. Defined.

End MoreRuns.
